(** * A shallow embedding of the simpleRPC runtime (client, server,
    multi-server client, discovery and registry) and proofs of its
    documented properties. *)

From Stdlib Require Import ZArith String Ascii Lia Sorting.Sorted.
From stdpp Require Import base gmap list strings sorting.

Open Scope Z_scope.

(** ** Codec (codec/codec.go) *)
Module Codec.

(** [codec.Header]. *)
Record Header := mkHeader {
  ServiceMethod : string;
  Seq : Z;          (* uint64 *)
  Error : string
}.

Definition GobType : string := "application/gob".
Definition JsonType : string := "application/json".

(** [NewCodecFuncMap]: [init] registers the gob codec only. *)
Definition NewCodecFuncMap_has (t : string) : bool :=
  String.eqb t GobType.

End Codec.

(** ** Options and the handshake check (server.go) *)
Module Options.

Definition MagicNumber : Z := 3927900.   (* 0x3bef5c *)

(** [time.Duration] values are nanoseconds. *)
Definition Second : Z := 1000000000.

(** [Option]. *)
Record Option := mkOption {
  OMagicNumber : Z;
  OCodecType : string;
  OConnectTimeout : Z;
  OHandleTimeout : Z
}.

(** [DefaultOption]. *)
Definition DefaultOption : Option :=
  mkOption MagicNumber Codec.GobType (10 * Second) 0.

(** The checks [Server.ServeConn] makes on a decoded option before it
    answers; a failing check closes the connection without reply. *)
Definition server_accepts (o : Option) : bool :=
  (OMagicNumber o =? MagicNumber) && Codec.NewCodecFuncMap_has (OCodecType o).

(** [parseOptions(opts ...*Option)]: a nil pointer is [None].  The
    caller's option is updated in place and returned. *)
Definition parseOptions (opts : list (option Option)) : Option + string :=
  match opts with
  | [] | None :: _ => inl DefaultOption
  | Some o :: _ =>
      if negb (Nat.eqb (length opts) 1) then inr "number of options is more than 1"
      else
        let o1 := mkOption (OMagicNumber DefaultOption) (OCodecType o)
                    (OConnectTimeout o) (OHandleTimeout o) in
        inl (if String.eqb (OCodecType o1) "" then
               mkOption (OMagicNumber o1) (OCodecType DefaultOption)
                 (OConnectTimeout o1) (OHandleTimeout o1)
             else o1)
  end.

End Options.

(** ** Client (client.go) *)
Module Client.

(** Go [uint64] arithmetic. *)
Definition two64 : Z := 2 ^ 64.
Definition u64 (z : Z) : Z := z mod two64.

Definition ErrShutdown : string := "connection is shut down".

(** A [Call] object.  [Done] is a buffered channel; [done_fired] counts
    the values sent to it by [call.done()]. *)
Record Call := mkCall {
  c_Seq : Z;
  c_ServiceMethod : string;
  c_Reply : option Z;       (* content of the reply slot *)
  c_Error : option string;  (* nil or the error's message *)
  c_done_fired : nat
}.

(** [*Call] pointers are positives into the heap [calls]. *)
Record Client := mkClient {
  seq : Z;
  pending : gmap Z positive;
  closing : bool;
  shutdown : bool;
  cc_closed : bool;         (* the codec's connection has been closed *)
  calls : gmap positive Call
}.

Definition set_seq (cl : Client) (s : Z) : Client :=
  mkClient s (pending cl) (closing cl) (shutdown cl) (cc_closed cl) (calls cl).
Definition set_pending (cl : Client) (p : gmap Z positive) : Client :=
  mkClient (seq cl) p (closing cl) (shutdown cl) (cc_closed cl) (calls cl).
Definition set_calls (cl : Client) (h : gmap positive Call) : Client :=
  mkClient (seq cl) (pending cl) (closing cl) (shutdown cl) (cc_closed cl) h.

Definition call_set_Seq (s : Z) (c : Call) : Call :=
  mkCall s (c_ServiceMethod c) (c_Reply c) (c_Error c) (c_done_fired c).
Definition call_set_Error (e : string) (c : Call) : Call :=
  mkCall (c_Seq c) (c_ServiceMethod c) (c_Reply c) (Some e) (c_done_fired c).
Definition call_set_Reply (v : Z) (c : Call) : Call :=
  mkCall (c_Seq c) (c_ServiceMethod c) (Some v) (c_Error c) (c_done_fired c).
(** [call.done()]: [call.Done <- call]. *)
Definition call_done (c : Call) : Call :=
  mkCall (c_Seq c) (c_ServiceMethod c) (c_Reply c) (c_Error c) (S (c_done_fired c)).

(** [newClientCodec]: [seq: 1], empty pending map. *)
Definition newClientCodec (h : gmap positive Call) : Client :=
  mkClient 1 ∅ false false false h.

(** [net.Conn.Close] on the codec's connection: closing twice reports
    the use of a closed connection. *)
Definition cc_Close (cl : Client) : Client * option string :=
  (mkClient (seq cl) (pending cl) (closing cl) (shutdown cl) true (calls cl),
   if cc_closed cl then Some "use of closed network connection" else None).

(** [Client.Close]. *)
Definition Close (cl : Client) : Client * option string :=
  if closing cl then (cl, Some ErrShutdown)
  else cc_Close (mkClient (seq cl) (pending cl) true (shutdown cl) (cc_closed cl) (calls cl)).

(** [Client.IsAvailable]. *)
Definition IsAvailable (cl : Client) : bool :=
  negb (shutdown cl) && negb (closing cl).

(** [Client.registerCall]. *)
Definition registerCall (p : positive) (cl : Client) : Client * (Z * option string) :=
  if closing cl || shutdown cl then (cl, (0, Some ErrShutdown))
  else
    let s := seq cl in
    let cl1 := set_calls cl (alter (call_set_Seq s) p (calls cl)) in
    let cl2 := set_pending cl1 (<[s := p]> (pending cl1)) in
    (set_seq cl2 (u64 (s + 1)), (s, None)).

(** [Client.removeCall]: the call stored under [seq] (nil if none), and
    the entry deleted. *)
Definition removeCall (s : Z) (cl : Client) : Client * option positive :=
  (set_pending cl (delete s (pending cl)), pending cl !! s).

(** Body of the [for _, call := range client.pending] loop of
    [terminateCalls], over the entries in iteration order. *)
Fixpoint terminate_loop (err : string) (l : list (Z * positive))
    (h : gmap positive Call) : gmap positive Call :=
  match l with
  | [] => h
  | (_, p) :: l' => terminate_loop err l' (alter (fun c => call_done (call_set_Error err c)) p h)
  end.

(** [Client.terminateCalls]: sets [shutdown] and fails every pending
    call; the pending map itself is left as it is. *)
Definition terminateCalls (err : string) (cl : Client) : Client :=
  mkClient (seq cl) (pending cl) (closing cl) true (cc_closed cl)
    (terminate_loop err (map_to_list (pending cl)) (calls cl)).

(** Operations on a client that touch its mutex-protected state. *)
Inductive op :=
| OpRegister (p : positive)      (* registerCall, from send *)
| OpRemove (s : Z)               (* removeCall, from receive/send/CallWithTimeout *)
| OpTerminate (err : string)     (* terminateCalls, from receive *)
| OpClose.                       (* Close *)

Definition step (cl : Client) (o : op) : Client * option Z :=
  match o with
  | OpRegister p =>
      let '(cl', (s, e)) := registerCall p cl in
      (cl', match e with None => Some s | Some _ => None end)
  | OpRemove s => (fst (removeCall s cl), None)
  | OpTerminate err => (terminateCalls err cl, None)
  | OpClose => (fst (Close cl), None)
  end.

(** [fmt.Errorf(format)] with no operands: the message [doPrintf]
    builds.  Text up to a ['%'] is copied; after it come flags
    (["#0+- "]), an optional argument index ["[n]"], a width (["*"] or
    digits), a precision (["."] then an index, ["*"] or digits), an
    index, and the verb.  With no operand every verb but ['%'] prints
    ["%!v(MISSING)"], or ["%!v(BADINDEX)"] after an index; a ["*"] prints
    ["%!(BADWIDTH)"] or ["%!(BADPREC)"]; a format ending before its verb
    prints ["%!(NOVERB)"]. *)
Definition is_flag (c : ascii) : bool :=
  existsb (Ascii.eqb c) ["#"; "0"; "+"; "-"; " "]%char.

Definition is_digit (c : ascii) : bool :=
  (48 <=? nat_of_ascii c)%nat && (nat_of_ascii c <=? 57)%nat.

(** The flags loop of [doPrintf] (its fast path needs an operand). *)
Fixpoint skip_flags (s : string) : string :=
  match s with
  | String c s' => if is_flag c then skip_flags s' else s
  | EmptyString => EmptyString
  end.

(** [parsenum]: whether a number was read, and the rest; a number past
    [tooLarge] ([> 1e6]) fails and jumps to the end. *)
Fixpoint parsenum (num : Z) (isnum : bool) (s : string) : bool * string :=
  match s with
  | String c s' =>
      if is_digit c then
        if 1000000 <? num then (false, EmptyString)
        else parsenum (num * 10 + Z.of_nat (nat_of_ascii c - 48)) true s'
      else (isnum, s)
  | EmptyString => (isnum, EmptyString)
  end.

(** [s] up to its first ["]"], and what follows it. *)
Fixpoint cut_close (s : string) : option (string * string) :=
  match s with
  | EmptyString => None
  | String c s' =>
      if Ascii.eqb c "]"%char then Some (EmptyString, s')
      else match cut_close s' with
           | Some (x, y) => Some (String c x, y)
           | None => None
           end
  end.

(** [parseArgNumber] on ["[" ++ t]: the rest after the bytes it
    consumes, and [ok]. *)
Definition parseArgNumber (t : string) : string * bool :=
  if (String.length t <? 2)%nat then (t, false)
  else match cut_close t with
       | None => (t, false)
       | Some (content, rest) =>
           (rest, match parsenum 0 false content with
                  | (true, EmptyString) => true
                  | _ => false
                  end)
       end.

(** [argNumber] with no operands: an index is never in range, so it
    clears [goodArgNum]; returns [goodArgNum], [afterIndex] and the rest. *)
Definition argNumber (good : bool) (s : string) : bool * bool * string :=
  match s with
  | String c t =>
      if Ascii.eqb c "["%char then let '(rest, ok) := parseArgNumber t in (false, ok, rest)
      else (good, false, s)
  | EmptyString => (good, false, EmptyString)
  end.

Definition in_range (lo hi : nat) (c : ascii) : bool :=
  (lo <=? nat_of_ascii c)%nat && (nat_of_ascii c <=? hi)%nat.

(** [utf8.RuneError] as [writeRune] writes it. *)
Definition rune_error : string :=
  String (ascii_of_nat 239) (String (ascii_of_nat 191) (String (ascii_of_nat 189) EmptyString)).

Fixpoint take_cont (k : nat) (s : string) : option (string * string) :=
  match k with
  | O => Some (EmptyString, s)
  | S k' =>
      match s with
      | String c s' =>
          if in_range 128 191 c then
            match take_cont k' s' with
            | Some (x, y) => Some (String c x, y)
            | None => None
            end
          else None
      | EmptyString => None
      end
  end.

(** For a leading byte of a multi-byte encoding: the number of
    continuation bytes and the range of the first one. *)
Definition utf8_lead (n0 : nat) : option (nat * nat * nat) :=
  if (n0 <? 194)%nat then None
  else if (n0 <=? 223)%nat then Some (1, 128, 191)%nat
  else if (n0 =? 224)%nat then Some (2, 160, 191)%nat
  else if (n0 <=? 236)%nat then Some (2, 128, 191)%nat
  else if (n0 =? 237)%nat then Some (2, 128, 159)%nat
  else if (n0 <=? 239)%nat then Some (2, 128, 191)%nat
  else if (n0 =? 240)%nat then Some (3, 144, 191)%nat
  else if (n0 <=? 243)%nat then Some (3, 128, 191)%nat
  else if (n0 =? 244)%nat then Some (3, 128, 143)%nat
  else None.

(** [utf8.DecodeRuneInString] for the verb: the bytes [writeRune] writes
    for it and the rest; an invalid encoding is [RuneError] of size 1. *)
Definition decode_verb (s : string) : option (string * string) :=
  match s with
  | EmptyString => None
  | String b0 s1 =>
      if (nat_of_ascii b0 <? 128)%nat then Some (String b0 EmptyString, s1)
      else match utf8_lead (nat_of_ascii b0) with
           | None => Some (rune_error, s1)
           | Some (k, lo, hi) =>
               match s1 with
               | String b1 s2 =>
                   if in_range lo hi b1 then
                     match take_cont (k - 1) s2 with
                     | Some (cs, rest) => Some (String b0 (String b1 cs), rest)
                     | None => Some (rune_error, s1)
                     end
                   else Some (rune_error, s1)
               | EmptyString => Some (rune_error, s1)
               end
           end
  end.

(** One verb of [doPrintf], after its ['%']: what it writes before the
    verb, [goodArgNum], and the rest from the verb on. *)
Definition verb_prefix (s : string) : string * bool * string :=
  let s1 := skip_flags s in
  let '(good1, after1, s2) := argNumber true s1 in
  let '(wout, after2, good2, s3) :=
    match s2 with
    | String c t =>
        if Ascii.eqb c "*"%char then ("%!(BADWIDTH)", false, good1, t)
        else let '(wp, t') := parsenum 0 false s2 in
             (EmptyString, after1, if after1 && wp then false else good1, t')
    | EmptyString => (EmptyString, after1, good1, EmptyString)
    end in
  let '(pout, after3, good3, s4) :=
    match s3 with
    | String c (String _ _ as t) =>
        if Ascii.eqb c "."%char then
          let good' := if after2 then false else good2 in
          let '(g, a, t1) := argNumber good' t in
          match t1 with
          | String c1 t2 =>
              if Ascii.eqb c1 "*"%char then ("%!(BADPREC)", false, g, t2)
              else let '(_, t2') := parsenum 0 false t1 in (EmptyString, a, g, t2')
          | EmptyString => (EmptyString, a, g, EmptyString)
          end
        else (EmptyString, after2, good2, s3)
    | _ => (EmptyString, after2, good2, s3)
    end in
  let '(good4, s5) :=
    if after3 then (good3, s4) else let '(g, _, t) := argNumber good3 s4 in (g, t) in
  (wout +:+ pout, good4, s5).

(** [doPrintf] over [format] with no operands; each round consumes at
    least one byte, so [length format] rounds suffice. *)
Fixpoint doPrintf (fuel : nat) (s : string) : string :=
  match fuel with
  | O => EmptyString
  | S fuel' =>
      match s with
      | EmptyString => EmptyString
      | String c s' =>
          if negb (Ascii.eqb c "%"%char) then String c (doPrintf fuel' s')
          else
            let '(pre, good, s5) := verb_prefix s' in
            pre +:+
            match decode_verb s5 with
            | None => "%!(NOVERB)"
            | Some (v, rest) =>
                (if String.eqb v "%" then "%"
                 else "%!" +:+ v +:+ (if good then "(MISSING)" else "(BADINDEX)"))
                +:+ doPrintf fuel' rest
            end
      end
  end.

Definition Errorf (format : string) : string := doPrintf (String.length format) format.

(** What the codec's [ReadBody] does with the next body on the stream:
    it decodes a value, or fails with an error message. *)
Inductive body_outcome :=
| BodyOk (v : Z)
| BodyErr (m : string).

(** [cc.ReadBody(nil)] discards the value. *)
Definition ReadBody_nil (b : body_outcome) : option string :=
  match b with BodyOk _ => None | BodyErr m => Some m end.

(** One iteration of the [for] loop of [Client.receive], after
    [cc.ReadHeader(&h)] returned header [h]; [b] is what the following
    [ReadBody] finds.  Returns the loop's [err]. *)
Definition receive_step (h : Codec.Header) (b : body_outcome) (cl : Client)
    : Client * option string :=
  let '(cl1, call) := removeCall (Codec.Seq h) cl in
  match call with
  | None => (cl1, ReadBody_nil b)
  | Some p =>
      if negb (String.eqb (Codec.Error h) "") then
        (* call.Error = fmt.Errorf(h.Error); err = ReadBody(nil); call.done() *)
        let h1 := alter (call_set_Error (Errorf (Codec.Error h))) p (calls cl1) in
        (set_calls cl1 (alter call_done p h1), ReadBody_nil b)
      else
        match b with
        | BodyOk v =>
            let h1 := alter (call_set_Reply v) p (calls cl1) in
            (set_calls cl1 (alter call_done p h1), None)
        | BodyErr m =>
            let h1 := alter (call_set_Error ("reading body " +:+ m)) p (calls cl1) in
            (set_calls cl1 (alter call_done p h1), Some m)
        end
  end.

(** Runs a sequence of operations; returns the final state and the
    sequence numbers handed out by the successful registrations, in order. *)
Fixpoint run (cl : Client) (os : list op) : Client * list Z :=
  match os with
  | [] => (cl, [])
  | o :: os' =>
      let '(cl1, r) := step cl o in
      let '(cl2, ss) := run cl1 os' in
      (cl2, match r with Some s => s :: ss | None => ss end)
  end.

End Client.

(** ** HTTP client (client.go) and HTTP constants (server.go) *)
Module HTTPClient.

Definition connected : string := "200 Connected to Gee RPC".
Definition defaultRPCPath : string := "/_simplerpc_".

Definition LF : string := String (Ascii.ascii_of_nat 10) EmptyString.
Definition CR : string := String (Ascii.ascii_of_nat 13) EmptyString.

(** [fmt.Sprintf("CONNECT %s HTTP/1.0\n\n", defaultRPCPath)]. *)
Definition connect_request : string :=
  "CONNECT " +:+ defaultRPCPath +:+ " HTTP/1.0" +:+ LF +:+ LF.

(** What [http.ReadResponse] returns: a response with its [Status], or
    an error. *)
Inductive read_response :=
| RespStatus (status : string)
| RespErr (e : string).

(** [NewHTTPClient(conn, opt)]: the bytes it writes on [conn] itself,
    and its result; [newClient] is what [NewClient(conn, opt)] would
    return, and [None] in the first component of the result means
    [NewClient] was not called. *)
Definition NewHTTPClient {C : Type} (resp : read_response) (newClient : C + string)
    : string * (C + string) * bool :=
  match resp with
  | RespStatus s =>
      if String.eqb s connected then (connect_request, newClient, true)
      else (connect_request, inr ("unexpected HTTP response:" +:+ s), false)
  | RespErr e => (connect_request, inr e, false)
  end.

End HTTPClient.

(** ** Server request loop (server.go) *)
Module Server.
Import Codec.

(** A registered method, as far as the request loop sees it: given the
    decoded argument it returns the reply or the handler's error. *)
Definition method := Z -> Z + string.

(** [Server.serviceMap]: service name to its [method] map. *)
Definition services := gmap string (gmap string method).

(** The request stream, frame by frame, as the gob codec reads it: a
    header, or an argument body.  [FBody] stands for argument values
    whose type shares no field with [Header] (an int, or a struct such as
    [Args]): gob refuses to decode such a value into a [Header]. *)
Inductive frame :=
| FHeader (h : Header)
| FBody (v : Z).

(** Response bodies: [invalidRequest] or a reply value. *)
Inductive rbody :=
| Invalid
| Val (v : Z).

(** [strings.LastIndex(s, ".")] with [-1] as [None]. *)
Fixpoint last_index_from (c : ascii) (s : string) (i : nat) (acc : option nat)
    : option nat :=
  match s with
  | EmptyString => acc
  | String a s' => last_index_from c s' (S i) (if Ascii.eqb a c then Some i else acc)
  end.

Definition LastIndex (s : string) (c : ascii) : option nat :=
  last_index_from c s 0 None.

Definition dot : ascii := "."%char.

(** [s[:i]] and [s[i+1:]] on byte strings. *)
Definition prefix_to (i : nat) (s : string) : string := substring 0 i s.
Definition suffix_after (i : nat) (s : string) : string :=
  substring (S i) (String.length s - S i) s.

(** [Server.findService]. *)
Definition findService (sv : services) (serviceMethod : string) : method + string :=
  match LastIndex serviceMethod dot with
  | None => inr ("rpc server: service/method request ill-formed: " +:+ serviceMethod)
  | Some d =>
      let serviceName := prefix_to d serviceMethod in
      let methodName := suffix_after d serviceMethod in
      match sv !! serviceName with
      | None => inr ("rpc server: can't find service " +:+ serviceName)
      | Some ms =>
          match ms !! methodName with
          | None => inr ("rpc server: can't find method " +:+ methodName)
          | Some m => inl m
          end
      end
  end.

Definition gob_mismatch : string := "gob: type mismatch".
Definition EOF : string := "EOF".

(** [Server.readRequestHeader]: reads the next frame as a header. *)
Definition readRequestHeader (st : list frame) : (Header + string) * list frame :=
  match st with
  | [] => (inr EOF, [])
  | FHeader h :: st' => (inl h, st')
  | FBody _ :: st' => (inr gob_mismatch, st')
  end.

(** [cc.ReadBody(argvi)] for an argument slot. *)
Definition ReadBody (st : list frame) : (Z + string) * list frame :=
  match st with
  | [] => (inr "unexpected EOF", [])
  | FBody v :: st' => (inl v, st')
  | FHeader _ :: st' => (inr gob_mismatch, st')
  end.

(** A [request]: its header, and its method and decoded argument once
    known. *)
Record request := mkRequest {
  r_h : Header;
  r_m : option method;
  r_argv : option Z
}.

(** [Server.readRequest]: [(req, err)] and the rest of the stream. *)
Definition readRequest (sv : services) (st : list frame)
    : option request * option string * list frame :=
  match readRequestHeader st with
  | (inr e, st1) => (None, Some e, st1)
  | (inl h, st1) =>
      match findService sv (ServiceMethod h) with
      | inr e => (Some (mkRequest h None None), Some e, st1)
      | inl m =>
          match ReadBody st1 with
          | (inr e, st2) => (Some (mkRequest h (Some m) None), Some e, st2)
          | (inl v, st2) => (Some (mkRequest h (Some m) (Some v)), None, st2)
          end
      end
  end.

Definition with_error (h : Header) (e : string) : Header :=
  mkHeader (ServiceMethod h) (Seq h) e.

(** [handleRequestWithTimeout] with [HandleTimeout = 0]: the method is
    called and its response sent. *)
Definition handleRequest (req : request) : Header * rbody :=
  match r_m req, r_argv req with
  | Some m, Some v =>
      match m v with
      | inl r => (r_h req, Val r)
      | inr e => (with_error (r_h req) e, Invalid)
      end
  | _, _ => (r_h req, Invalid)
  end.

(** [Server.serveCodec]: the responses written, in order, and whether
    the loop has ended (after which the codec is closed).  Handlers run
    on their own goroutines in the source; this is the schedule where each
    finishes before the next header is read. *)
Fixpoint serveCodec (fuel : nat) (sv : services) (st : list frame)
    (out : list (Header * rbody)) : list (Header * rbody) * bool :=
  match fuel with
  | O => (out, false)
  | S fuel' =>
      match readRequest sv st with
      | (None, _, _) => (out, true)
      | (Some req, Some e, st1) =>
          serveCodec fuel' sv st1 (out ++ [(with_error (r_h req) e, Invalid)])
      | (Some req, None, st1) =>
          serveCodec fuel' sv st1 (out ++ [handleRequest req])
      end
  end.

(** The loop over a whole stream: every iteration consumes a frame. *)
Definition serve (sv : services) (st : list frame) : list (Header * rbody) * bool :=
  serveCodec (S (length st)) sv st [].

End Server.

(** ** Multi-server client (xclient/xclient.go) *)
Module XClient.

(** State of [Broadcast]'s aggregation, guarded by [mu]: the retained
    error [e], the latch [replyDone], the content of the caller's reply
    slot ([None] when [reply == nil]), the number of [cancel()] calls and
    the number of writes into the caller's reply slot. *)
Record bstate := mkB {
  b_e : option string;
  b_replyDone : bool;
  b_reply : option Z;
  b_cancels : nat;
  b_writes : nat
}.

(** The critical section a sibling goroutine runs once [xc.call]
    returned: [inl v] is success with [v] in its cloned reply slot,
    [inr err] a failure. *)
Definition critical (st : bstate) (r : Z + string) : bstate :=
  let st1 :=
    match r with
    | inr err =>
        match b_e st with
        | None => mkB (Some err) (b_replyDone st) (b_reply st) (S (b_cancels st)) (b_writes st)
        | Some _ => st
        end
    | inl _ => st
    end in
  match r with
  | inl v =>
      if negb (b_replyDone st1)
      then mkB (b_e st1) true (Some v) (b_cancels st1) (S (b_writes st1))
      else st1
  | inr _ => st1
  end.

(** [XClient.Broadcast]: [getAll] is what [xc.d.GetAll()] returns;
    [results] are the siblings' results in the order in which they take
    [mu].  Returns Broadcast's error and the final aggregation state. *)
Definition Broadcast (getAll : list string + string) (reply : option Z)
    (results : list (Z + string)) : option string * bstate :=
  let st0 := mkB None (match reply with None => true | Some _ => false end) reply 0 0 in
  match getAll with
  | inr err => (Some err, st0)
  | inl _ =>
      let st := fold_left critical results st0 in
      (b_e st, st)
  end.

End XClient.

(** ** Static discovery (xclient/discovery.go) and math/rand *)
Module Discovery.

Definition MaxInt32 : Z := 2 ^ 31 - 1.

(** [rngSource.Int63]: a [Uint64] draw masked to 63 bits. *)
Definition Int63 (u : Z) : Z := Z.land u (2 ^ 63 - 1).
(** [Rand.Int31]: [int32(r.Int63() >> 32)]. *)
Definition Int31 (u : Z) : Z := Z.shiftr (Int63 u) 32.

(** The rejection loop of [Rand.Int31n]: the first draw at most [max]. *)
Fixpoint int31n_loop (mx n : Z) (draws : list Z) : option Z :=
  match draws with
  | [] => None
  | u :: draws' => if Int31 u <=? mx then Some (Int31 u mod n) else int31n_loop mx n draws'
  end.

(** [Rand.Int31n(n)] over a stream of [Uint64] draws of the source;
    [None] if [n <= 0] (a panic) or the draws run out. *)
Definition Int31n (n : Z) (draws : list Z) : option Z :=
  if n <=? 0 then None
  else if Z.land n (n - 1) =? 0 then
    match draws with
    | [] => None
    | u :: _ => Some (Z.land (Int31 u) (n - 1))
    end
  else int31n_loop ((2 ^ 31 - 1) - (2 ^ 31 mod n)) n draws.

(** [NewMultiServerDiscovery]: [d.index = d.r.Intn(math.MaxInt32 - 1)];
    [Rand.Intn(n)] is [Int31n(n)] for [0 < n <= MaxInt32]. *)
Definition initial_index (draws : list Z) : option Z :=
  Int31n (MaxInt32 - 1) draws.

End Discovery.

(** ** Registry (registry/registry.go) *)
Module Registry.

(** [ServerItem]; times are nanoseconds of a monotonic clock. *)
Record ServerItem := mkItem {
  Addr : string;
  start : Z
}.

Abbreviation servers := (gmap string ServerItem).

(** [SimpleRegistry.putServer] at time [now]. *)
Definition putServer (addr : string) (now : Z) (r : servers) : servers :=
  match r !! addr with
  | None => <[addr := mkItem addr now]> r
  | Some s => <[addr := mkItem (Addr s) now]> r
  end.

(** The test of [aliveServers]:
    [r.timeout == 0 || s.start.Add(r.timeout).After(now)]. *)
Definition alive (timeout now : Z) (s : ServerItem) : bool :=
  (timeout =? 0) || (now <? start s + timeout).

(** The [range] loop of [aliveServers]. *)
Definition sweep_entry (timeout now : Z) (acc : servers * list string)
    (e : string * ServerItem) : servers * list string :=
  let '(r, l) := acc in
  if alive timeout now e.2 then (r, l ++ [e.1]) else (delete e.1 r, l).

(** [sort.Strings]: byte-wise ascending order. *)
Definition sortStrings (l : list string) : list string := merge_sort String.le l.

(** [SimpleRegistry.aliveServers] at time [now]. *)
Definition aliveServers (timeout now : Z) (r : servers) : servers * list string :=
  let '(r', l) := fold_left (sweep_entry timeout now) (map_to_list r) (r, []) in
  (r', sortStrings l).

(** [strings.Join(l, ",")]. *)
Definition Join (l : list string) : string := String.concat "," l.

(** A response: status code, value of [X-Simplerpc-Servers] if set. *)
Record response := mkResp {
  status : Z;
  header : option string
}.

(** [SimpleRegistry.ServeHTTP]; [hdr] is
    [req.Header.Get("X-Simplerpc-Servers")] and [t1 <= t2] are the clock
    readings of the [time.Now()] calls, in order ([GET] calls
    [aliveServers] twice: for the log line and for the header). *)
Definition ServeHTTP (timeout : Z) (method hdr : string) (t1 t2 : Z) (r : servers)
    : response * servers :=
  if String.eqb method "GET" then
    let '(r1, _) := aliveServers timeout t1 r in
    let '(r2, l) := aliveServers timeout t2 r1 in
    (mkResp 200 (Some (Join l)), r2)
  else if String.eqb method "POST" then
    if String.eqb hdr "" then (mkResp 500 None, r)
    else (mkResp 200 None, putServer hdr t1 r)
  else (mkResp 405 None, r).

(** The map part of the [range] loop of [aliveServers]. *)
Definition del_expired (timeout now : Z) (r : servers) (e : string * ServerItem) : servers :=
  if alive timeout now e.2 then r else delete e.1 r.

End Registry.

(** ** Concrete inputs and reference functions used by the proofs *)
Module Inputs.

(** A call object before registration. *)
Definition call0 : Client.Call := Client.mkCall 0 "Foo.Sum" None None 0.

(** A server with one service [Foo] and one method [Sum]. *)
Definition sv_foo : Server.services :=
  {[ "Foo" := {[ "Sum" := (fun v : Z => inl (v + v) : Z + string) ]} ]}.

(** The first failure and the first success of a list of results. *)
Fixpoint first_error (rs : list (Z + string)) : option string :=
  match rs with
  | [] => None
  | inr e :: _ => Some e
  | inl _ :: rs' => first_error rs'
  end.

Fixpoint first_success (rs : list (Z + string)) : option Z :=
  match rs with
  | [] => None
  | inl v :: _ => Some v
  | inr _ :: rs' => first_success rs'
  end.

End Inputs.

(** ** Byte-string helpers of the Go standard library *)
Module GoStrings.

(** [strings.Split(s, sep)] for a one-byte separator [sep]. *)
Fixpoint split_char (c : ascii) (s : string) : list string :=
  match s with
  | EmptyString => [""]
  | String a s' =>
      let rest := split_char c s' in
      if Ascii.eqb a c then "" :: rest
      else match rest with
           | [] => [String a ""]
           | w :: ws => String a w :: ws
           end
  end.

(** [strings.Contains(s, string(c))] for a byte [c]. *)
Fixpoint has_byte (c : ascii) (s : string) : bool :=
  match s with
  | EmptyString => false
  | String a s' => Ascii.eqb a c || has_byte c s'
  end.

(** [strings.Cut(s, string(c))]: [None] when [c] does not occur. *)
Fixpoint cut_char (c : ascii) (s : string) : option (string * string) :=
  match s with
  | EmptyString => None
  | String a s' =>
      if Ascii.eqb a c then Some ("", s')
      else match cut_char c s' with
           | Some (x, y) => Some (String a x, y)
           | None => None
           end
  end.

Definition bytes (l : list nat) : string :=
  fold_right (fun n s => String (ascii_of_nat n) s) "" l.

(** The UTF-8 encodings of the runes [unicode.IsSpace] accepts:
    ['\t'], ['\n'], ['\v'], ['\f'], ['\r'], [' '], U+0085, U+00A0,
    U+1680, U+2000 to U+200A, U+2028, U+2029, U+202F, U+205F, U+3000. *)
Definition space_runes : list string :=
  map bytes
    [[9]; [10]; [11]; [12]; [13]; [32]; [194; 133]; [194; 160];
     [225; 154; 128];
     [226; 128; 128]; [226; 128; 129]; [226; 128; 130]; [226; 128; 131];
     [226; 128; 132]; [226; 128; 133]; [226; 128; 134]; [226; 128; 135];
     [226; 128; 136]; [226; 128; 137]; [226; 128; 138];
     [226; 128; 168]; [226; 128; 169]; [226; 128; 175]; [226; 129; 159];
     [227; 128; 128]]%nat.

Fixpoint string_rev (s : string) : string :=
  match s with
  | EmptyString => EmptyString
  | String a s' => string_rev s' +:+ String a EmptyString
  end.

(** Removes one leading encoded rune of [ps], if [s] starts with one. *)
Fixpoint strip_rune (ps : list string) (s : string) : option string :=
  match ps with
  | [] => None
  | p :: ps' =>
      if String.prefix p s
      then Some (substring (String.length p) (String.length s - String.length p) s)
      else strip_rune ps' s
  end.

(** Removes leading encoded runes of [ps] while there are some; every
    step removes at least one byte, so [n = length s] steps suffice. *)
Fixpoint trim_runes (ps : list string) (n : nat) (s : string) : string :=
  match n with
  | O => s
  | S n' =>
      match strip_rune ps s with
      | Some s' => trim_runes ps n' s'
      | None => s
      end
  end.

(** [strings.TrimSpace]: its ASCII fast path and its [TrimFunc] fallback
    both remove the leading and the trailing runes that [unicode.IsSpace]
    accepts, decoding UTF-8 (an invalid byte decodes as [RuneError], which
    is not a space). *)
Definition TrimSpace (s : string) : string :=
  let s1 := trim_runes space_runes (String.length s) s in
  string_rev (trim_runes (map string_rev space_runes) (String.length s1) (string_rev s1)).

(** [strings.TrimLeft(s, string(c))] for a byte [c]. *)
Fixpoint trim_left_char (c : ascii) (s : string) : string :=
  match s with
  | String a s' => if Ascii.eqb a c then trim_left_char c s' else s
  | EmptyString => EmptyString
  end.

End GoStrings.

(** ** Sending, receiving and dialing (client.go) *)
Module ClientCalls.
Import Client Options GoStrings.

(** [Client.send(call)] for the call at [p]; [werr] is what
    [cc.Write(&client.header, call.Args)] returns ([GobCodec.Write] closes
    the connection when it fails).  Returns the state and the header
    handed to [Write] ([None] if [Write] was not called). *)
Definition send (p : positive) (werr : option string) (cl : Client)
    : Client * option Codec.Header :=
  let '(cl1, (s, e)) := registerCall p cl in
  match e with
  | Some err =>
      (set_calls cl1 (alter (fun c => call_done (call_set_Error err c)) p (calls cl1)), None)
  | None =>
      let h := Codec.mkHeader (default "" (c_ServiceMethod <$> calls cl1 !! p)) s "" in
      match werr with
      | None => (cl1, Some h)
      | Some we =>
          let cl2 := (cc_Close cl1).1 in
          let '(cl3, call) := removeCall s cl2 in
          match call with
          | None => (cl3, Some h)
          | Some q =>
              (set_calls cl3 (alter (fun c => call_done (call_set_Error we c)) q (calls cl3)),
               Some h)
          end
      end
  end.

(** [Client.receive]: [rs] are the headers [ReadHeader] returns, each
    with what the following [ReadBody] finds, and [eh] is the error of
    the [ReadHeader] after the last of them.  The loop stops at the first
    error, which it passes to [terminateCalls]. *)
Fixpoint receive (rs : list (Codec.Header * body_outcome)) (eh : string) (cl : Client)
    : Client :=
  match rs with
  | [] => terminateCalls eh cl
  | (h, b) :: rs' =>
      let '(cl1, e) := receive_step h b cl in
      match e with
      | Some m => terminateCalls m cl1
      | None => receive rs' eh cl1
      end
  end.

(** [NewClient(conn, opt)]: [enc_err] is the error of encoding [opt] on
    [conn], [reply] what decoding the server's answer gives.  Returns the
    result, the option written in full on [conn] ([None] if none), and
    whether [NewClient] closed [conn]. *)
Definition NewClient (opt : Option) (enc_err : option string) (reply : Option + string)
    (h : gmap positive Call) : (Client + string) * option Option * bool :=
  if negb (Codec.NewCodecFuncMap_has (OCodecType opt)) then
    (inr ("invalid codec type " +:+ OCodecType opt), None, false)
  else
    match enc_err with
    | Some e => (inr e, None, true)
    | None =>
        match reply with
        | inr e => (inr e, Some opt, true)
        | inl _ => (inl (newClientCodec h), Some opt, false)
        end
    end.

(** [Dial(network, address, opts...)]: [dial_err] is the error of
    [net.Dial].  Returns the result and the option written on the
    connection. *)
Definition Dial (opts : list (option Option)) (dial_err : option string)
    (enc_err : option string) (reply : Option + string) (h : gmap positive Call)
    : (Client + string) * option Option :=
  match parseOptions opts with
  | inr e => (inr e, None)
  | inl opt =>
      match dial_err with
      | Some e => (inr e, None)
      | None => let '(r, sent, _) := NewClient opt enc_err reply h in (r, sent)
      end
  end.

(** The two dialers [XDial] chooses between, with their arguments. *)
Inductive dialer :=
| ViaDialHTTP (network addr : string) (opts : list (option Option))
| ViaDialWithTimeout (network addr : string) (opts : list (option Option)).

Definition at_sign : ascii := "@"%char.

(** [XDial(rpcAddr, opts...)]: the dialer it calls, or its error. *)
Definition XDial (rpcAddr : string) (opts : list (option Option)) : dialer + string :=
  match split_char at_sign rpcAddr with
  | [protocol; addr] =>
      if String.eqb protocol "http" then inl (ViaDialHTTP "tcp" addr opts)
      else inl (ViaDialWithTimeout protocol addr opts)
  | _ => inr ("rpc client err: wrong format '" +:+ rpcAddr +:+ "', expect protocol@addr")
  end.

End ClientCalls.

(** ** Registration, connections and HTTP on the server (server.go) *)
Module ServerConn.
Import Codec Server Options GoStrings.

(** [Server.Register(rcvr)] for a receiver whose type is named [name],
    with [exported] the value of [ast.IsExported(name)] (its first rune
    is an upper-case letter) and [ms] the method table [registerMethods]
    builds.  [newService] calls [log.Fatalf] on an unexported name, which
    exits the process: [inr] is the message it logs.  Otherwise
    [serviceMap.LoadOrStore(name, s)]: the new map and [Register]'s error. *)
Definition Register (exported : bool) (name : string) (ms : gmap string method) (sv : services)
    : (services * option string) + string :=
  if negb exported then inr ("rpc server: " +:+ name +:+ " is not a valid service name")
  else
    inl (match sv !! name with
         | Some _ => (sv, Some ("rpc: service already defined:" +:+ name))
         | None => (<[name := ms]> sv, None)
         end).

(** The frames a client writes for a list of requests: each [Write] is a
    header followed by its argument body. *)
Definition frames_of (reqs : list (Header * Z)) : list frame :=
  concat (map (fun hv => [FHeader hv.1; FBody hv.2]) reqs).

(** The response [serveCodec] gives to a request whose body was read. *)
Definition respond (sv : services) (h : Header) (v : Z) : Header * rbody :=
  match findService sv (ServiceMethod h) with
  | inl m => handleRequest (mkRequest h (Some m) (Some v))
  | inr e => (with_error h e, Invalid)
  end.

(** *** [serveCodec] with its handlers running concurrently *)

(** What the reading loop of [serveCodec] does with each request: send
    an error response itself, or start [handleRequestWithTimeout] on a
    goroutine ([wg.Add(1)]). *)
Inductive event :=
| ESync (r : Header * rbody)
| ESpawn (req : request).

(** The reading loop of [Server.serveCodec]: its events in order, and
    whether it has ended (on a request it cannot read). *)
Fixpoint serve_events (fuel : nat) (sv : services) (st : list frame) : list event * bool :=
  match fuel with
  | O => ([], false)
  | S fuel' =>
      match readRequest sv st with
      | (None, _, _) => ([], true)
      | (Some req, Some e, st1) =>
          let '(evs, b) := serve_events fuel' sv st1 in
          (ESync (with_error (r_h req) e, Invalid) :: evs, b)
      | (Some req, None, st1) =>
          let '(evs, b) := serve_events fuel' sv st1 in (ESpawn req :: evs, b)
      end
  end.

Definition timeout_error (dur : string) : string :=
  "rpc server: request handle timeout expect within " +:+ dur.

(** The responses one [handleRequestWithTimeout] may send; [dur] is
    [timeout.String()].  With [timeout = 0] it waits for the method and
    sends its result; otherwise the [select] sends either that (the
    method returned first) or the timeout error (the timer fired first,
    and the method's goroutine then blocks on [called] forever). *)
Definition handler_outputs (timeout : Z) (dur : string) (req : request) : list (Header * rbody) :=
  handleRequest req ::
  (if timeout =? 0 then [] else [(with_error (r_h req) (timeout_error dur), Invalid)]).

(** The schedules of [serveCodec]: [sched timeout dur evs run w] says
    that from the loop's remaining events [evs], with started handlers
    about to send [run], the connection may receive the responses [w],
    each written whole under the [sending] mutex.  The loop sends its
    error responses in order; a started handler sends its response at
    any later point; [wg.Wait()] lets the codec close only once every
    handler has sent. *)
Inductive sched (timeout : Z) (dur : string)
    : list event -> list (Header * rbody) -> list (Header * rbody) -> Prop :=
| sched_done : sched timeout dur [] [] []
| sched_sync r evs run w :
    sched timeout dur evs run w -> sched timeout dur (ESync r :: evs) run (r :: w)
| sched_spawn req o evs run w :
    In o (handler_outputs timeout dur req) ->
    sched timeout dur evs (o :: run) w -> sched timeout dur (ESpawn req :: evs) run w
| sched_write r1 r2 o evs w :
    sched timeout dur evs (r1 ++ r2) w -> sched timeout dur evs (r1 ++ o :: r2) (o :: w).

(** [Server.ServeConn(conn)]: [dec] is the option decoded from [conn],
    [enc_err] the error of writing it back.  Returns the option written
    back ([None] if none) and the responses of [serveCodec]. *)
Definition ServeConn (dec : Option + string) (enc_err : option string) (sv : services)
    (st : list frame) : option Option * list (Header * rbody) :=
  match dec with
  | inr _ => (None, [])
  | inl o =>
      if negb (OMagicNumber o =? MagicNumber) then (None, [])
      else if negb (NewCodecFuncMap_has (OCodecType o)) then (None, [])
      else match enc_err with
           | Some _ => (None, [])
           | None => (Some o, (serve sv st).1)
           end
  end.

(** What [Server.ServeHTTP] does with a request. *)
Inductive http_outcome :=
| NotAllowed (status : Z) (content_type : string) (body : string)
| HijackFailed
| Connected (preamble : string) (echo : option Option) (responses : list (Header * rbody)).

(** [Server.ServeHTTP]: [hijack_ok] says whether [Hijack] succeeded; the
    rest are the inputs of [ServeConn] on the hijacked connection. *)
Definition ServeHTTP (method : string) (hijack_ok : bool) (dec : Option + string)
    (enc_err : option string) (sv : services) (st : list frame) : http_outcome :=
  if negb (String.eqb method "CONNECT") then
    NotAllowed 405 "text/plain; charset=utf-8" ("405 must CONNECT" +:+ HTTPClient.LF)
  else if negb hijack_ok then HijackFailed
  else
    let '(e, rs) := ServeConn dec enc_err sv st in
    Connected ("HTTP/1.0 " +:+ HTTPClient.connected +:+ HTTPClient.LF +:+ HTTPClient.LF) e rs.

Definition drop_last_cr (s : string) : string :=
  string_rev (match string_rev s with
              | String a s' => if Ascii.eqb a (ascii_of_nat 13) then s' else String a s'
              | EmptyString => EmptyString
              end).

(** The [Status] [http.ReadResponse] takes from the bytes it reads: the
    first line (up to ["\n"], a final ["\r"] removed), after its first
    space, with the spaces that follow removed; [None] where it fails
    before that (no line, or no space in it). *)
Definition response_status (bytes : string) : option string :=
  match cut_char (ascii_of_nat 10) bytes with
  | None => None
  | Some (line, _) =>
      match cut_char " "%char (drop_last_cr line) with
      | None => None
      | Some (_, status) => Some (trim_left_char " "%char status)
      end
  end.

End ServerConn.

(** ** Server selection (xclient/discovery.go) *)
Module Selection.
Import Discovery.

(** Go [int] arithmetic (64 bits). *)
Definition i64 (z : Z) : Z := ((z + 2 ^ 63) mod 2 ^ 64) - 2 ^ 63.

(** The rejection loop of [Rand.Int63n]. *)
Fixpoint int63n_loop (mx n : Z) (draws : list Z) : option Z :=
  match draws with
  | [] => None
  | u :: draws' => if Int63 u <=? mx then Some (Int63 u mod n) else int63n_loop mx n draws'
  end.

(** [Rand.Int63n(n)]. *)
Definition Int63n (n : Z) (draws : list Z) : option Z :=
  if n <=? 0 then None
  else if Z.land n (n - 1) =? 0 then
    match draws with
    | [] => None
    | u :: _ => Some (Z.land (Int63 u) (n - 1))
    end
  else int63n_loop ((2 ^ 63 - 1) - (2 ^ 63 mod n)) n draws.

(** [Rand.Intn(n)]. *)
Definition Intn (n : Z) (draws : list Z) : option Z :=
  if n <=? 0 then None
  else if n <=? MaxInt32 then Int31n n draws else Int63n n draws.

(** [MultiServersDiscovery]: the server list and the round-robin index. *)
Record msd := mkMSD {
  d_servers : list string;
  d_index : Z
}.

Definition RandomSelect : Z := 0.
Definition RoundRobinSelect : Z := 1.

(** [servers[i]]; [None] is an index-out-of-range panic. *)
Definition at_index (l : list string) (i : Z) : option string :=
  if i <? 0 then None else nth_error l (Z.to_nat i).

(** [MultiServersDiscovery.Refresh]. *)
Definition Refresh (d : msd) : option string := None.

(** [MultiServersDiscovery.Update]. *)
Definition Update (l : list string) (d : msd) : msd * option string :=
  (mkMSD l (d_index d), None).

(** [MultiServersDiscovery.Get(mode)] with the source's draws for
    [r.Intn]; [None] is a panic (or the draws running out). *)
Definition Get (mode : Z) (draws : list Z) (d : msd) : option ((string + string) * msd) :=
  let n := Z.of_nat (length (d_servers d)) in
  if n =? 0 then Some (inr "rpc discovery: no available servers", d)
  else if mode =? RandomSelect then
    match Intn n draws with
    | None => None
    | Some i => (fun s => (inl s, d)) <$> at_index (d_servers d) i
    end
  else if mode =? RoundRobinSelect then
    (fun s => (inl s, mkMSD (d_servers d) (Z.rem (i64 (d_index d + 1)) n)))
      <$> at_index (d_servers d) (Z.rem (d_index d) n)
  else Some (inr "rpc discovery: not supported select mode", d).

(** [MultiServersDiscovery.GetAll]: a copy of the list. *)
Definition GetAll (d : msd) : list string * option string :=
  (List.map (fun s => s) (d_servers d), None).

(** [NewMultiServerDiscovery(servers)]. *)
Definition NewMultiServerDiscovery (servers : list string) (draws : list Z) : option msd :=
  (fun i => mkMSD servers i) <$> initial_index draws.

(** [k] successive [Get(RoundRobinSelect)] calls. *)
Fixpoint round_robin (k : nat) (d : msd) : option (list (string + string) * msd) :=
  match k with
  | O => Some ([], d)
  | S k' =>
      match Get RoundRobinSelect [] d with
      | None => None
      | Some (r, d1) =>
          match round_robin k' d1 with
          | None => None
          | Some (rs, d2) => Some (r :: rs, d2)
          end
      end
  end.

End Selection.

(** ** Discovery through the registry (xclient/discovery_simpleregistry.go) *)
Module RegistryDiscovery.
Import Selection GoStrings.

(** [SimpleRegistryDiscovery]; times are nanoseconds since Go's zero
    [time.Time], which is the initial [lastUpdate]. *)
Record rdisc := mkRD {
  rd_msd : msd;
  rd_registry : string;
  rd_timeout : Z;
  rd_lastUpdate : Z
}.

Definition defaultUpdateTimeout : Z := 10 * Options.Second.

(** [NewSimpleRegistryDiscovery(registerAddr, timeout)]; [d0] is the
    [NewMultiServerDiscovery(make([]string, 0))] it embeds. *)
Definition NewSimpleRegistryDiscovery (registerAddr : string) (timeout : Z) (d0 : msd) : rdisc :=
  mkRD d0 registerAddr (if timeout =? 0 then defaultUpdateTimeout else timeout) 0.

(** The loop of [Refresh] over [strings.Split(header, ",")]. *)
Fixpoint keep_nonblank (l : list string) : list string :=
  match l with
  | [] => []
  | s :: l' =>
      if String.eqb (TrimSpace s) "" then keep_nonblank l'
      else TrimSpace s :: keep_nonblank l'
  end.

Definition comma : ascii := ","%char.

(** [SimpleRegistryDiscovery.Refresh] at time [now]; [fetch] is the
    [X-Simplerpc-Servers] header of the registry's answer to [http.Get]
    (empty if absent), or its error.  Returns the error, the new state
    and whether the registry was asked. *)
Definition Refresh (now : Z) (fetch : string + string) (d : rdisc)
    : option string * rdisc * bool :=
  if now <? rd_lastUpdate d + rd_timeout d then (None, d, false)
  else
    match fetch with
    | inr e => (Some e, d, true)
    | inl hdr =>
        (None,
         mkRD (mkMSD (keep_nonblank (split_char comma hdr)) (d_index (rd_msd d)))
           (rd_registry d) (rd_timeout d) now,
         true)
    end.

(** [SimpleRegistryDiscovery.Update] at time [now]. *)
Definition Update (now : Z) (l : list string) (d : rdisc) : rdisc * option string :=
  (mkRD (mkMSD l (d_index (rd_msd d))) (rd_registry d) (rd_timeout d) now, None).

(** [SimpleRegistryDiscovery.GetAll]. *)
Definition GetAll (now : Z) (fetch : string + string) (d : rdisc)
    : (list string + string) * rdisc :=
  let '(e, d1, _) := Refresh now fetch d in
  match e with
  | Some err => (inr err, d1)
  | None => (inl (GetAll (rd_msd d1)).1, d1)
  end.

End RegistryDiscovery.

(** ** Connection cache of the multi-server client (xclient/xclient.go) *)
Module XClientConns.
Import Client.

(** [XClient.dial(rpcAddr)] on the cache [clients]; [xdial] is what
    [XDial(rpcAddr, xc.opt)] returns if it is called.  Returns the
    result, the new cache, the stale client after its [Close] (if one
    was dropped) and whether [XDial] was called. *)
Definition dial (rpcAddr : string) (xdial : Client + string) (clients : gmap string Client)
    : (Client + string) * gmap string Client * option Client * bool :=
  match clients !! rpcAddr with
  | Some c =>
      if IsAvailable c then (inl c, clients, None, false)
      else
        let stale := (Close c).1 in
        let clients1 := delete rpcAddr clients in
        match xdial with
        | inr e => (inr e, clients1, Some stale, true)
        | inl n => (inl n, <[rpcAddr := n]> clients1, Some stale, true)
        end
  | None =>
      match xdial with
      | inr e => (inr e, clients, None, true)
      | inl n => (inl n, <[rpcAddr := n]> clients, None, true)
      end
  end.

(** [XClient.Close]: the [range] loop closes each client and deletes its
    entry.  Returns the cache and the clients as closed, in loop order. *)
Definition Close (clients : gmap string Client) : gmap string Client * list (string * Client) :=
  (fold_left (fun m kc => delete kc.1 m) (map_to_list clients) clients,
   List.map (fun kc => (kc.1, (Client.Close kc.2).1)) (map_to_list clients)).

End XClientConns.

(** ** Heartbeats (registry/registry.go) *)
Module Heartbeat.

Definition Minute : Z := 60 * Options.Second.
Definition defaultTimeout : Z := 5 * Minute.

(** The period [Heartbeat] gives its ticker. *)
Definition heartbeat_duration (duration : Z) : Z :=
  if (duration =? 0) || (defaultTimeout <? duration) then defaultTimeout - 1 * Minute
  else duration.

End Heartbeat.

(** * Proofs *)

(** ** Sequence numbers, the pending table and closing *)
Module ClientProofs.
Import Client.

(** Registration leaves [closing], [shutdown] and [cc_closed] as they are. *)
Lemma registerCall_flags p cl :
  closing (registerCall p cl).1 = closing cl /\
  shutdown (registerCall p cl).1 = shutdown cl.
Proof. unfold registerCall. destruct (closing cl || shutdown cl); done. Qed.

Lemma u64_range z : 0 <= u64 z < two64.
Proof. unfold u64, two64. apply Z.mod_pos_bound. lia. Qed.

Lemma u64_id z : 0 <= z < two64 -> u64 z = z.
Proof. intros H. unfold u64. apply Z.mod_small. lia. Qed.

(** Only a successful registration moves the counter, by one modulo
    [2^64], and it hands out the counter's old value. *)
Lemma step_seq cl o :
  let '(cl', r) := step cl o in
  match r with
  | Some s => s = seq cl /\ seq cl' = u64 (seq cl + 1)
  | None => seq cl' = seq cl
  end.
Proof.
  destruct o as [p|s|err|]; simpl; try done.
  - unfold registerCall. destruct (closing cl || shutdown cl); simpl; done.
  - unfold Close, cc_Close. destruct (closing cl); done.
Qed.

(** The sequence numbers handed out along any run of operations:
    consecutive values of the counter, modulo [2^64]. *)
Lemma run_seqs cl os :
  0 <= seq cl < two64 ->
  (run cl os).2 = map (fun k => u64 (seq cl + Z.of_nat k)) (List.seq 0 (length (run cl os).2)).
Proof.
  revert cl. induction os as [|o os IH]; intros cl Hr; [done|].
  simpl. pose proof (step_seq cl o) as Hs.
  destruct (step cl o) as [cl1 r] eqn:Hst.
  destruct (run cl1 os) as [cl2 ss] eqn:Hrun. simpl.
  destruct r as [s|].
  - destruct Hs as [-> Hseq].
    assert (Hr1 : 0 <= seq cl1 < two64) by (rewrite Hseq; apply u64_range).
    specialize (IH cl1 Hr1). rewrite Hrun in IH. simpl in IH.
    simpl. rewrite <- seq_shift, map_map. f_equal.
    + rewrite Z.add_0_r. symmetry. by apply u64_id.
    + rewrite IH at 1. apply map_ext. intros k. rewrite Hseq.
      unfold u64. rewrite Zplus_mod_idemp_l. f_equal. lia.
  - specialize (IH cl1 ltac:(by rewrite Hs)).
    rewrite Hrun, Hs in IH. exact IH.
Qed.

Lemma StronglySorted_map_seq (f : nat -> Z) start n :
  (forall i j, (i < j)%nat -> f i < f j) ->
  StronglySorted Z.lt (map f (List.seq start n)).
Proof.
  intros Hf. revert start. induction n as [|n IH]; intros start; simpl.
  - constructor.
  - constructor; [apply IH|].
    apply Forall_forall. intros x Hx%list_elem_of_In. apply in_map_iff in Hx as (k & <- & Hk).
    apply in_seq in Hk. apply Hf. lia.
Qed.

(** Registering on an open client always succeeds. *)
Lemma run_register_all p cl n :
  closing cl = false -> shutdown cl = false ->
  length (run cl (repeat (OpRegister p) n)).2 = n.
Proof.
  revert cl. induction n as [|n IH]; intros cl Hc Hs; [done|].
  cbn [repeat run].
  pose proof (registerCall_flags p cl) as [H1 H2].
  unfold step. destruct (registerCall p cl) as [cl' [s e]] eqn:Hreg.
  assert (e = None) as ->.
  { unfold registerCall in Hreg. rewrite Hc, Hs in Hreg. simpl in Hreg. congruence. }
  simpl in H1, H2.
  specialize (IH cl' ltac:(congruence) ltac:(congruence)).
  destruct (run cl' _) as [cl2 ss]. simpl in *. by rewrite IH.
Qed.

(** The flags never go back to [false]. *)
Lemma step_flags cl o :
  (closing cl = true -> closing (step cl o).1 = true) /\
  (closing cl || shutdown cl = true -> closing (step cl o).1 || shutdown (step cl o).1 = true).
Proof.
  destruct o as [p|s|err|]; simpl.
  - pose proof (registerCall_flags p cl) as [H1 H2].
    destruct (registerCall p cl) as [cl' [s e]]. simpl in *. rewrite H1, H2. split; auto.
  - split; auto.
  - split; auto. intros _. apply orb_true_r.
  - unfold Close, cc_Close. destruct (closing cl) eqn:E; simpl; split; intros; auto; by rewrite E.
Qed.

Lemma run_closing cl os :
  closing cl = true -> closing (run cl os).1 = true.
Proof.
  revert cl. induction os as [|o os IH]; intros cl H; [done|].
  simpl. pose proof (proj1 (step_flags cl o) H) as H1.
  destruct (step cl o) as [cl1 r]. destruct (run cl1 os) as [cl2 ss] eqn:Hrun.
  simpl in *. specialize (IH cl1 H1). rewrite Hrun in IH. exact IH.
Qed.

Lemma run_unavailable cl os :
  closing cl || shutdown cl = true ->
  closing (run cl os).1 || shutdown (run cl os).1 = true.
Proof.
  revert cl. induction os as [|o os IH]; intros cl H; [done|].
  simpl. pose proof (proj2 (step_flags cl o) H) as H1.
  destruct (step cl o) as [cl1 r]. destruct (run cl1 os) as [cl2 ss] eqn:Hrun.
  simpl in *. specialize (IH cl1 H1). rewrite Hrun in IH. exact IH.
Qed.

Lemma Close_closing cl : closing (Close cl).1 = true.
Proof. unfold Close, cc_Close. destruct (closing cl) eqn:E; done. Qed.

Lemma terminate_loop_spec err l hp p c :
  hp !! p = Some c ->
  exists c', terminate_loop err l hp !! p = Some c' /\
    (c_done_fired c <= c_done_fired c')%nat /\
    ((p ∈ l.*2 \/ c_Error c = Some err) -> c_Error c' = Some err) /\
    (p ∈ l.*2 -> (c_done_fired c < c_done_fired c')%nat).
Proof.
  revert hp c. induction l as [|[k p0] l IH]; intros hp c Hc; simpl.
  - exists c. split; [done|]. split; [lia|]. split.
    + intros [Hin|He]; [by apply elem_of_nil in Hin | done].
    + intros Hin. by apply elem_of_nil in Hin.
  - destruct (decide (p0 = p)) as [->|Hne].
    + assert (Hf : alter (fun c0 => call_done (call_set_Error err c0)) p hp !! p
                   = Some (call_done (call_set_Error err c))).
      { by rewrite lookup_alter_eq, Hc. }
      destruct (IH _ _ Hf) as (c' & Hl & Hd & He & _).
      exists c'. simpl in *. split; [done|]. split; [lia|]. split.
      * intros _. apply He. by right.
      * intros _. lia.
    + assert (Hf : alter (fun c0 => call_done (call_set_Error err c0)) p0 hp !! p = Some c).
      { by rewrite lookup_alter_ne. }
      destruct (IH _ _ Hf) as (c' & Hl & Hd & He & Hlt).
      exists c'. split; [done|]. split; [done|]. split.
      * intros [Hin|Hce]; apply He; [left|by right].
        apply elem_of_cons in Hin as [Hin|Hin]; [congruence|done].
      * intros Hin. apply Hlt. apply elem_of_cons in Hin as [Hin|Hin]; [congruence|done].
Qed.

(** C1 (amended): on a client built by [newClientCodec], whatever other
    operations are interleaved, as long as at most [2^64 - 1] calls have
    been registered the registered calls receive the sequence numbers
    [1, 2, 3, ...] in registration order: distinct and strictly
    increasing.  (The [uint64] counter wraps to [0] after that.) *)
Theorem seq_increasing_before_wrap (h : gmap positive Call) (os : list op)
  (Hn : Z.of_nat (length (run (newClientCodec h) os).2) < two64) :
  (run (newClientCodec h) os).2
    = map (fun k => Z.of_nat k + 1) (List.seq 0 (length (run (newClientCodec h) os).2)) /\
  StronglySorted Z.lt (run (newClientCodec h) os).2.
Proof.
  pose proof (run_seqs (newClientCodec h) os) as E.
  change (seq (newClientCodec h)) with 1 in E.
  specialize (E ltac:(unfold two64; lia)).
  revert Hn E. generalize (run (newClientCodec h) os).2. intros ss Hn E.
  assert (E2 : ss = map (fun k => Z.of_nat k + 1) (List.seq 0 (length ss))).
  { rewrite E at 1. apply map_ext_in. intros k Hk%in_seq.
    rewrite u64_id; lia. }
  split; [exact E2|]. rewrite E2. apply StronglySorted_map_seq. intros; lia.
Qed.

Lemma seq_increasing_before_wrap_witness :
  Z.of_nat (length (run (newClientCodec ∅)
    [OpRegister 1; OpRegister 2; OpRemove 1; OpRegister 3; OpRemove 2]).2) < two64 /\
  (run (newClientCodec ∅) [OpRegister 1; OpRegister 2; OpRemove 1; OpRegister 3; OpRemove 2]).2
    = [1; 2; 3] /\
  (run (newClientCodec ∅) [OpRegister 1; OpRegister 2; OpRemove 1; OpRegister 3; OpRemove 2]).2
    = map (fun k => Z.of_nat k + 1)
        (List.seq 0 (length (run (newClientCodec ∅)
           [OpRegister 1; OpRegister 2; OpRemove 1; OpRegister 3; OpRemove 2]).2)) /\
  StronglySorted Z.lt
    (run (newClientCodec ∅) [OpRegister 1; OpRegister 2; OpRemove 1; OpRegister 3; OpRemove 2]).2.
Proof.
  split; [vm_compute; reflexivity|]. split; [vm_compute; reflexivity|].
  apply (seq_increasing_before_wrap ∅ [OpRegister 1; OpRegister 2; OpRemove 1; OpRegister 3; OpRemove 2]).
  vm_compute. reflexivity.
Defined.

(** C1 counterexample: registering [2^64 + 1] calls on a fresh client,
    the first gets [1], the [2^64]-th gets [0] (smaller, though later)
    and the last gets [1] again (reused). *)
Lemma seq_wraps_after_2_64 :
  nth_error (run (newClientCodec ∅) (repeat (OpRegister 1) (Z.to_nat (two64 + 1)))).2 0 = Some 1 /\
  nth_error (run (newClientCodec ∅) (repeat (OpRegister 1) (Z.to_nat (two64 + 1)))).2
    (Z.to_nat (two64 - 1)) = Some 0 /\
  nth_error (run (newClientCodec ∅) (repeat (OpRegister 1) (Z.to_nat (two64 + 1)))).2
    (Z.to_nat two64) = Some 1.
Proof.
  pose proof (run_register_all 1 (newClientCodec ∅) (Z.to_nat (two64 + 1)) eq_refl eq_refl) as Hlen.
  pose proof (run_seqs (newClientCodec ∅) (repeat (OpRegister 1) (Z.to_nat (two64 + 1)))) as E.
  change (seq (newClientCodec ∅)) with 1 in E.
  specialize (E ltac:(unfold two64; lia)).
  revert Hlen E. generalize (run (newClientCodec ∅) (repeat (OpRegister 1) (Z.to_nat (two64 + 1)))).2.
  intros ss Hlen E. rewrite Hlen in E. rewrite E.
  assert (H0 : Nat.ltb 0 (Z.to_nat (two64 + 1)) = true).
  { apply Nat.ltb_lt. unfold two64. lia. }
  assert (H1 : Nat.ltb (Z.to_nat (two64 - 1)) (Z.to_nat (two64 + 1)) = true).
  { apply Nat.ltb_lt. unfold two64. lia. }
  assert (H2 : Nat.ltb (Z.to_nat two64) (Z.to_nat (two64 + 1)) = true).
  { apply Nat.ltb_lt. unfold two64. lia. }
  rewrite !nth_error_map, !nth_error_seq, H0, H1, H2.
  cbn [option_map]. rewrite !Nat.add_0_l, !Z2Nat.id by (unfold two64; lia).
  split; [|split]; f_equal; unfold u64, two64; reflexivity.
Qed.

(** C2 (amended): [removeCall] (used by [receive] on every response and
    by [CallWithTimeout] on cancellation) deletes the entry of its
    sequence number; [terminateCalls err] sets [shutdown], gives every
    pending call the error [err] and fires its done signal, and leaves
    the pending map unchanged. *)
Theorem pending_removal_and_teardown (cl : Client) (s : Z) (h : Codec.Header)
    (b : body_outcome) (err : string) :
  pending (removeCall s cl).1 = delete s (pending cl) /\
  (removeCall s cl).2 = pending cl !! s /\
  pending (receive_step h b cl).1 = delete (Codec.Seq h) (pending cl) /\
  pending (terminateCalls err cl) = pending cl /\
  shutdown (terminateCalls err cl) = true /\
  (forall s' p c, pending cl !! s' = Some p -> calls cl !! p = Some c ->
     exists c', calls (terminateCalls err cl) !! p = Some c' /\
       c_Error c' = Some err /\ (c_done_fired c < c_done_fired c')%nat).
Proof.
  split; [done|]. split; [done|]. split.
  { unfold receive_step, removeCall. simpl.
    destruct (pending cl !! Codec.Seq h); [|done].
    destruct (negb (String.eqb (Codec.Error h) "")); [done|].
    destruct b; done. }
  split; [done|]. split; [done|].
  intros s' p c Hp Hc.
  destruct (terminate_loop_spec err (map_to_list (pending cl)) (calls cl) p c Hc)
    as (c' & Hl & _ & He & Hlt).
  assert (Hin : p ∈ (map_to_list (pending cl)).*2).
  { apply list_elem_of_fmap. exists (s', p). split; [done|].
    by apply elem_of_map_to_list. }
  exists c'. split; [done|]. split; [apply He; by left | by apply Hlt].
Qed.

(** C2 counterexample: after a call is registered and the connection
    torn down, its entry is still in the pending map. *)
Lemma pending_kept_after_terminate :
  pending (run (newClientCodec {[1%positive := Inputs.call0]})
             [OpRegister 1; OpTerminate "EOF"]).1 !! 1 = Some 1%positive /\
  shutdown (run (newClientCodec {[1%positive := Inputs.call0]})
             [OpRegister 1; OpTerminate "EOF"]).1 = true.
Proof. vm_compute. split; reflexivity. Qed.

(** C3 (amended): when a response with an empty [Error] matches a
    pending call, [receive] fires the call's done signal once; if the
    body decodes to [v] it lands in the reply slot, and if decoding fails
    with message [m] the call's error is ["reading body " ++ m] (a space,
    no colon).  The loop goes on with the [ReadBody] error. *)
Theorem receive_body_error_message (cl : Client) (h : Codec.Header) (b : body_outcome)
    (p : positive) (c : Call)
    (Herr : Codec.Error h = "") (Hp : pending cl !! Codec.Seq h = Some p)
    (Hc : calls cl !! p = Some c) :
  calls (receive_step h b cl).1 !! p =
    Some (match b with
          | BodyOk v =>
              mkCall (c_Seq c) (c_ServiceMethod c) (Some v) (c_Error c) (S (c_done_fired c))
          | BodyErr m =>
              mkCall (c_Seq c) (c_ServiceMethod c) (c_Reply c)
                (Some ("reading body " +:+ m)) (S (c_done_fired c))
          end) /\
  (receive_step h b cl).2 = ReadBody_nil b.
Proof.
  unfold receive_step, removeCall. simpl. rewrite Hp, Herr. simpl.
  destruct b as [v|m]; simpl; rewrite !lookup_alter_eq, Hc; done.
Qed.

Lemma receive_body_error_message_witness :
  Codec.Error (Codec.mkHeader "Foo.Sum" 1 "") = "" /\
  pending (run (newClientCodec {[1%positive := Inputs.call0]}) [OpRegister 1]).1
    !! Codec.Seq (Codec.mkHeader "Foo.Sum" 1 "") = Some 1%positive /\
  calls (run (newClientCodec {[1%positive := Inputs.call0]}) [OpRegister 1]).1
    !! 1%positive = Some (call_set_Seq 1 Inputs.call0) /\
  calls (receive_step (Codec.mkHeader "Foo.Sum" 1 "") (BodyErr "EOF")
           (run (newClientCodec {[1%positive := Inputs.call0]}) [OpRegister 1]).1).1
    !! 1%positive =
    Some (mkCall 1 "Foo.Sum" None (Some ("reading body " +:+ "EOF")) 1).
Proof.
  split; [reflexivity|]. split; [vm_compute; reflexivity|].
  split; [vm_compute; reflexivity|].
  exact (proj1 (receive_body_error_message
    (run (newClientCodec {[1%positive := Inputs.call0]}) [OpRegister 1]).1
    (Codec.mkHeader "Foo.Sum" 1 "") (BodyErr "EOF") 1%positive (call_set_Seq 1 Inputs.call0)
    eq_refl ltac:(vm_compute; reflexivity) ltac:(vm_compute; reflexivity))).
Defined.

(** C3 counterexample: a body that fails to decode with ["EOF"] leaves
    the error ["reading body EOF"], not ["reading body: EOF"]. *)
Lemma reading_body_without_colon :
  (c_Error <$> calls (receive_step (Codec.mkHeader "Foo.Sum" 1 "") (BodyErr "EOF")
      (run (newClientCodec {[1%positive := Inputs.call0]}) [OpRegister 1]).1).1 !! 1%positive)
    = Some (Some "reading body EOF") /\
  ((c_Error <$> calls (receive_step (Codec.mkHeader "Foo.Sum" 1 "") (BodyErr "EOF")
      (run (newClientCodec {[1%positive := Inputs.call0]}) [OpRegister 1]).1).1 !! 1%positive)
    = Some (Some ("reading body: " +:+ "EOF")) <-> False).
Proof.
  vm_compute. split; [reflexivity|]. split; [discriminate|contradiction].
Qed.

(** C4: the first [Close] of a client that is not closing sets [closing]
    and closes the codec; after a [Close], whatever happens in between,
    every later [Close] returns [ErrShutdown] and every [registerCall]
    fails with [ErrShutdown]; and once [closing] or [shutdown] holds,
    every later [registerCall] fails with [ErrShutdown]. *)
Theorem close_sentinel (cl : Client) (os : list op) (p : positive) :
  (closing cl = false -> closing (Close cl).1 = true /\ cc_closed (Close cl).1 = true) /\
  Close (run (Close cl).1 os).1 = ((run (Close cl).1 os).1, Some ErrShutdown) /\
  registerCall p (run (Close cl).1 os).1 = ((run (Close cl).1 os).1, (0, Some ErrShutdown)) /\
  (closing cl || shutdown cl = true ->
     registerCall p (run cl os).1 = ((run cl os).1, (0, Some ErrShutdown))).
Proof.
  pose proof (run_closing (Close cl).1 os (Close_closing cl)) as Hc.
  split; [|split; [|split]].
  - intros H. unfold Close, cc_Close. rewrite H. done.
  - unfold Close at 1. by rewrite Hc.
  - unfold registerCall at 1. by rewrite Hc.
  - intros H. pose proof (run_unavailable cl os H) as Hu.
    unfold registerCall at 1. by rewrite Hu.
Qed.

End ClientProofs.

(** ** Server request loop *)
Module ServerProofs.
Import Codec Server.

(** [findService] on a name with no ['.'] reports it as ill-formed. *)
Lemma findService_no_dot sv s :
  LastIndex s dot = None ->
  findService sv s = inr ("rpc server: service/method request ill-formed: " +:+ s).
Proof. intros H. unfold findService. by rewrite H. Qed.

(** C5 (code defect): a request for ["Foo"] (no ['.']) is answered with
    the ill-formed error, but [readRequest] returns before reading its
    argument body; the next [ReadHeader] meets that body, fails, and the
    loop ends, so the following well-formed request ["Foo.Sum"] (seq 2)
    is never answered and the connection is closed. *)
Theorem ill_formed_request_stops_serving :
  serve Inputs.sv_foo
    [FHeader (mkHeader "Foo" 1 ""); FBody 3; FHeader (mkHeader "Foo.Sum" 2 ""); FBody 4]
  = ([(mkHeader "Foo" 1 "rpc server: service/method request ill-formed: Foo", Invalid)], true).
Proof. vm_compute. reflexivity. Qed.

(** For contrast: the same two requests, both well-formed, are both
    answered. *)
Example well_formed_requests_served :
  serve Inputs.sv_foo
    [FHeader (mkHeader "Foo.Sum" 1 ""); FBody 3; FHeader (mkHeader "Foo.Sum" 2 ""); FBody 4]
  = ([(mkHeader "Foo.Sum" 1 "", Val 6); (mkHeader "Foo.Sum" 2 "", Val 8)], true).
Proof. vm_compute. reflexivity. Qed.

End ServerProofs.

(** ** Broadcast *)
Module XClientProofs.
Import XClient Inputs.

(** The aggregation over the results still to come, from any state. *)
Lemma fold_critical rs st :
  let st' := fold_left critical rs st in
  b_e st' = (match b_e st with Some e => Some e | None => first_error rs end) /\
  b_cancels st' = (match b_e st, first_error rs with
                   | None, Some _ => S (b_cancels st)
                   | _, _ => b_cancels st end) /\
  (b_replyDone st = true ->
     b_reply st' = b_reply st /\ b_writes st' = b_writes st) /\
  (b_replyDone st = false ->
     b_reply st' = (match first_success rs with Some v => Some v | None => b_reply st end) /\
     b_writes st' = (match first_success rs with Some _ => S (b_writes st) | None => b_writes st end)).
Proof.
  revert st. induction rs as [|r rs IH]; intros st; simpl.
  - destruct (b_e st); repeat split; done.
  - destruct st as [e rd rp cn wr].
    destruct r as [v|err]; simpl.
    + destruct rd; simpl.
      * destruct (IH (mkB e true rp cn wr)) as (H1 & H2 & H3 & _). simpl in *.
        split; [done|]. split; [done|]. split; [|discriminate]. intros _. by apply H3.
      * destruct (IH (mkB e true (Some v) cn (S wr))) as (H1 & H2 & H3 & _). simpl in *.
        split; [done|]. split; [by destruct e|]. split; [discriminate|].
        intros _. by apply H3.
    + destruct e as [e0|]; simpl.
      * destruct (IH (mkB (Some e0) rd rp cn wr)) as (H1 & H2 & H3 & H4). simpl in *.
        split; [done|]. split; [done|]. split; done.
      * destruct (IH (mkB (Some err) rd rp (S cn) wr)) as (H1 & H2 & H3 & H4). simpl in *.
        split; [done|]. split; [done|]. split; done.
Qed.

(** C6: with the address list [servers] and the siblings' results
    [results] in the order they take [mu], [Broadcast] returns the first
    error (nil if there is none), calls [cancel] exactly once if there is
    an error and never otherwise; if [reply] is nil it never writes a
    reply; otherwise the caller's slot receives the first successful
    sibling reply, written exactly once, and is left as it was if no
    sibling succeeded. *)
Theorem broadcast_aggregation (servers : list string) (reply : option Z)
    (results : list (Z + string)) :
  (Broadcast (inl servers) reply results).1 = first_error results /\
  b_cancels (Broadcast (inl servers) reply results).2
    = (match first_error results with Some _ => 1%nat | None => 0%nat end) /\
  match reply with
  | None =>
      b_writes (Broadcast (inl servers) reply results).2 = 0%nat /\
      b_reply (Broadcast (inl servers) reply results).2 = None
  | Some v0 =>
      b_reply (Broadcast (inl servers) reply results).2
        = Some (match first_success results with Some v => v | None => v0 end) /\
      b_writes (Broadcast (inl servers) reply results).2
        = (match first_success results with Some _ => 1%nat | None => 0%nat end)
  end.
Proof.
  unfold Broadcast. simpl.
  destruct reply as [v0|].
  - destruct (fold_critical results (mkB None false (Some v0) 0 0)) as (H1 & H2 & _ & H4).
    simpl in *. destruct (H4 eq_refl) as [H5 H6].
    split; [done|]. split; [by rewrite H2; destruct (first_error results)|].
    rewrite H5, H6. by destruct (first_success results).
  - destruct (fold_critical results (mkB None true None 0 0)) as (H1 & H2 & H3 & _).
    simpl in *. destruct (H3 eq_refl) as [H5 H6].
    split; [done|]. split; [by rewrite H2; destruct (first_error results)|]. done.
Qed.

End XClientProofs.

(** ** HTTP client *)
Module HTTPClientProofs.
Import HTTPClient.

(** C8 (amended): [NewHTTPClient] writes ["CONNECT /_simplerpc_ HTTP/1.0"]
    followed by two line feeds ([\n\n]), calls [NewClient] (and returns
    its result) exactly when the response status is
    ["200 Connected to Gee RPC"], and otherwise returns an error. *)
Theorem http_connect_handshake {C : Type} (resp : read_response) (nc : C + string) :
  (NewHTTPClient resp nc).1.1 = "CONNECT " +:+ defaultRPCPath +:+ " HTTP/1.0" +:+ LF +:+ LF /\
  ((NewHTTPClient resp nc).2 = true <-> resp = RespStatus connected) /\
  ((NewHTTPClient resp nc).2 = true -> (NewHTTPClient resp nc).1.2 = nc) /\
  ((NewHTTPClient resp nc).2 = false -> exists e, (NewHTTPClient resp nc).1.2 = inr e).
Proof.
  destruct resp as [s|e]; simpl.
  - destruct (String.eqb_spec s connected) as [->|Hne]; simpl.
    + split; [done|]. split; [done|]. split; [done|]. discriminate.
    + split; [done|]. split; [split; [discriminate|congruence]|].
      split; [discriminate|]. intros _. eauto.
  - split; [done|]. split; [split; discriminate|]. split; [discriminate|]. eauto.
Qed.

(** C8 counterexample: the request line is not terminated by
    ["\r\n\r\n"]. *)
Lemma connect_request_not_crlf :
  connect_request = "CONNECT /_simplerpc_ HTTP/1.0" +:+ CR +:+ LF +:+ CR +:+ LF <-> False.
Proof. vm_compute. split; [discriminate|contradiction]. Qed.

End HTTPClientProofs.

(** ** Initial round-robin index *)
Module DiscoveryProofs.
Import Discovery.

Lemma Int31_range u : 0 <= Int31 u < 2 ^ 31.
Proof.
  unfold Int31, Int63.
  replace (2 ^ 63 - 1) with (Z.ones 63) by (rewrite Z.ones_equiv; reflexivity).
  rewrite Z.land_ones by lia. rewrite Z.shiftr_div_pow2 by lia.
  pose proof (Z.mod_pos_bound u (2 ^ 63) ltac:(lia)).
  split; [apply Z.div_pos; lia|].
  apply Z.div_lt_upper_bound; lia.
Qed.

Lemma Int31_shiftl v : 0 <= v < 2 ^ 31 -> Int31 (Z.shiftl v 32) = v.
Proof.
  intros Hv. unfold Int31, Int63.
  replace (2 ^ 63 - 1) with (Z.ones 63) by (rewrite Z.ones_equiv; reflexivity).
  rewrite Z.land_ones by lia. rewrite Z.shiftl_mul_pow2 by lia.
  rewrite Z.mod_small by lia. rewrite Z.shiftr_div_pow2 by lia.
  apply Z.div_mul. lia.
Qed.

(** [Intn(MaxInt32 - 1)] is the rejection loop keeping the first
    [Int31] draw at most [2^31 - 3]. *)
Lemma initial_index_loop draws :
  initial_index draws = int31n_loop (2 ^ 31 - 3) (2 ^ 31 - 2) draws.
Proof. reflexivity. Qed.

Lemma initial_index_cons u rest :
  initial_index (u :: rest) =
    if Int31 u <=? MaxInt32 - 2 then Some (Int31 u) else initial_index rest.
Proof.
  rewrite !initial_index_loop. cbn [int31n_loop].
  change (MaxInt32 - 2) with (2 ^ 31 - 3).
  destruct (Int31 u <=? 2 ^ 31 - 3) eqn:E; [|done].
  apply Z.leb_le in E. pose proof (Int31_range u).
  f_equal. apply Z.mod_small. lia.
Qed.

Lemma initial_index_range draws v :
  initial_index draws = Some v -> 0 <= v <= MaxInt32 - 2.
Proof.
  induction draws as [|u rest IH]; [discriminate|].
  rewrite initial_index_cons. destruct (Int31 u <=? MaxInt32 - 2) eqn:E.
  - intros [= <-]. apply Z.leb_le in E. pose proof (Int31_range u). lia.
  - exact IH.
Qed.

(** C9 (amended): the initial index is drawn from [[0, 2^31 - 2)]: a
    value is a possible initial index iff [0 <= v <= 2^31 - 3]; it is the
    first [Int31] draw of the source that is at most [2^31 - 3], taken
    unchanged, so each value of the range comes from exactly one [Int31]
    value and the choice is uniform when the source is. *)
Theorem initial_index_uniform_range :
  (forall v, (exists draws, initial_index draws = Some v) <-> 0 <= v <= MaxInt32 - 2) /\
  (forall u rest, initial_index (u :: rest) =
     if Int31 u <=? MaxInt32 - 2 then Some (Int31 u) else initial_index rest).
Proof.
  split; [|exact initial_index_cons].
  intros v. split.
  - intros [draws Hd]. exact (initial_index_range draws v Hd).
  - intros Hv. exists [Z.shiftl v 32].
    rewrite initial_index_cons, Int31_shiftl by (unfold MaxInt32 in Hv; lia).
    destruct (Z.leb_spec v (MaxInt32 - 2)); [done|lia].
Qed.

(** C9 counterexample: [2^31 - 2], inside the claimed range, is never
    the initial index. *)
Lemma initial_index_never_max :
  (exists draws, initial_index draws = Some (2 ^ 31 - 2)) <-> False.
Proof.
  split; [|contradiction].
  intros [draws Hd]. apply initial_index_range in Hd. unfold MaxInt32 in Hd. lia.
Qed.

End DiscoveryProofs.

(** ** Options *)
Module OptionsProofs.
Import Options.

(** A single non-nil option comes back with the default magic number,
    and with the gob codec if it named none. *)
Lemma parseOptions_single o :
  parseOptions [Some o] =
    inl (mkOption MagicNumber
           (if String.eqb (OCodecType o) "" then Codec.GobType else OCodecType o)
           (OConnectTimeout o) (OHandleTimeout o)).
Proof. unfold parseOptions. simpl. by destruct (String.eqb (OCodecType o) ""). Qed.

(** C10 (code defect): two options whose first is nil are not rejected:
    [parseOptions] returns [DefaultOption] before its count check, which
    only rejects a list of several options whose first is non-nil. *)
Theorem parseOptions_nil_first_skips_count (o : Option) :
  parseOptions [None; Some o] = inl DefaultOption /\
  parseOptions [Some o; None] = inr "number of options is more than 1".
Proof. split; reflexivity. Qed.

End OptionsProofs.

(** ** Registry *)
Module RegistryProofs.
Import Registry.

Lemma alive_iff timeout now s :
  alive timeout now s = true <-> timeout = 0 \/ now - start s < timeout.
Proof.
  unfold alive. rewrite orb_true_iff, Z.eqb_eq, Z.ltb_lt. lia.
Qed.

(** An entry alive at some time was alive at every earlier time. *)
Lemma alive_earlier timeout t1 t2 s :
  t1 <= t2 -> alive timeout t2 s = true -> alive timeout t1 s = true.
Proof. rewrite !alive_iff. lia. Qed.

Lemma fmap_is_map {A B} (f : A -> B) (l : list A) : f <$> l = List.map f l.
Proof. induction l as [|x l IH]; simpl; [done|]. by rewrite <- IH. Qed.

Lemma fold_sweep timeout now es r l :
  fold_left (sweep_entry timeout now) es (r, l) =
    (fold_left (del_expired timeout now) es r,
     l ++ List.map fst (List.filter (fun e => alive timeout now e.2) es)).
Proof.
  revert r l. induction es as [|e es IH]; intros r l; simpl.
  - by rewrite app_nil_r.
  - unfold del_expired at 2. destruct (alive timeout now e.2); simpl; rewrite IH.
    + by rewrite <- app_assoc.
    + done.
Qed.

Lemma fold_del_lookup timeout now es r a :
  fold_left (del_expired timeout now) es r !! a =
    if existsb (fun e => String.eqb e.1 a && negb (alive timeout now e.2)) es
    then None else r !! a.
Proof.
  revert r. induction es as [|e es IH]; intros r; simpl; [done|].
  rewrite IH. unfold del_expired.
  destruct (alive timeout now e.2); simpl.
  - by rewrite andb_false_r.
  - rewrite andb_true_r. destruct (String.eqb_spec e.1 a) as [<-|Hne]; simpl.
    + rewrite lookup_delete_eq. by destruct (existsb _ es).
    + by rewrite lookup_delete_ne.
Qed.

(** The map left by [aliveServers]: the entries alive at [now]. *)
Lemma aliveServers_lookup timeout now r a :
  (aliveServers timeout now r).1 !! a =
    match r !! a with
    | Some s => if alive timeout now s then Some s else None
    | None => None
    end.
Proof.
  unfold aliveServers. rewrite fold_sweep. simpl. rewrite fold_del_lookup.
  destruct (existsb _ _) eqn:Hex.
  - apply existsb_exists in Hex as ([k s] & Hin & Hk).
    apply andb_true_iff in Hk as [Hk Ha]. apply String.eqb_eq in Hk. simpl in *. subst k.
    apply list_elem_of_In, elem_of_map_to_list in Hin. rewrite Hin.
    by destruct (alive timeout now s).
  - destruct (r !! a) as [s|] eqn:Hra; [|done].
    destruct (alive timeout now s) eqn:Ha; [done|].
    assert (Hin : In (a, s) (map_to_list r)).
    { apply list_elem_of_In. by apply elem_of_map_to_list. }
    assert (Hc : existsb (fun e => String.eqb e.1 a && negb (alive timeout now e.2))
                   (map_to_list r) = true).
    { apply existsb_exists. exists (a, s). split; [done|]. simpl.
      by rewrite String.eqb_refl, Ha. }
    congruence.
Qed.

Lemma NoDup_map_fst_filter {B} (f : string * B -> bool) (l : list (string * B)) :
  NoDup (List.map fst l) -> NoDup (List.map fst (List.filter f l)).
Proof.
  induction l as [|e l IH]; simpl; intros Hnd; [constructor|].
  apply NoDup_cons in Hnd as [Hnin Hnd].
  destruct (f e); simpl; [|by apply IH].
  apply NoDup_cons. split; [|by apply IH].
  intros Hin. apply Hnin. apply list_elem_of_In in Hin. apply list_elem_of_In.
  apply in_map_iff in Hin as (e' & He & Hin). apply in_map_iff.
  exists e'. split; [done|]. by apply filter_In in Hin as [? _].
Qed.

(** The list returned by [aliveServers]: sorted, without duplicates,
    and holding exactly the addresses of the entries alive at [now]. *)
Lemma aliveServers_list timeout now r :
  StronglySorted String.le (aliveServers timeout now r).2 /\
  NoDup (aliveServers timeout now r).2 /\
  (forall a, In a (aliveServers timeout now r).2 <->
     exists s, r !! a = Some s /\ alive timeout now s = true).
Proof.
  unfold aliveServers. rewrite fold_sweep. simpl. unfold sortStrings.
  pose proof (merge_sort_Permutation String.le
    (List.map fst (List.filter (fun e => alive timeout now e.2) (map_to_list r)))) as Hp.
  split; [apply StronglySorted_merge_sort; apply _|]. split.
  - rewrite Hp. apply NoDup_map_fst_filter.
    rewrite <- fmap_is_map. apply NoDup_fst_map_to_list.
  - intros a. split.
    + intros Hin. apply (Permutation_in _ Hp) in Hin.
      apply in_map_iff in Hin as ([k s] & Hk & Hin). simpl in Hk. subst k.
      apply filter_In in Hin as [Hin Ha]. simpl in Ha.
      apply list_elem_of_In, elem_of_map_to_list in Hin. eauto.
    + intros (s & Hs & Ha). apply (Permutation_in _ (Permutation_sym Hp)).
      apply in_map_iff. exists (a, s). split; [done|].
      apply filter_In. split; [|done].
      apply list_elem_of_In. by apply elem_of_map_to_list.
Qed.

(** C7: an entry is alive iff [ttl = 0] or [now - last_seen < ttl]; a
    [GET] (whose two sweeps read the clock at [t1 <= t2]) leaves exactly
    the entries alive at [t2] and answers with their addresses, sorted
    byte-wise, without duplicates, joined by [","] in
    [X-Simplerpc-Servers]; a [POST] with an empty header answers [500]
    and changes nothing; a [POST] with address [a] answers [200] and
    sets [a]'s [last_seen] to the current time, other entries unchanged;
    any other method answers [405] and changes nothing. *)
Theorem registry_serve (timeout : Z) (hdr : string) (t1 t2 : Z) (r : servers) :
  (forall now s, alive timeout now s = true <-> timeout = 0 \/ now - start s < timeout) /\
  (t1 <= t2 ->
     status (ServeHTTP timeout "GET" hdr t1 t2 r).1 = 200 /\
     (forall a, (ServeHTTP timeout "GET" hdr t1 t2 r).2 !! a =
        match r !! a with
        | Some s => if alive timeout t2 s then Some s else None
        | None => None
        end) /\
     exists l, header (ServeHTTP timeout "GET" hdr t1 t2 r).1 = Some (Join l) /\
       StronglySorted String.le l /\ NoDup l /\
       (forall a, In a l <-> is_Some ((ServeHTTP timeout "GET" hdr t1 t2 r).2 !! a))) /\
  ServeHTTP timeout "POST" "" t1 t2 r = (mkResp 500 None, r) /\
  (hdr <> "" ->
     status (ServeHTTP timeout "POST" hdr t1 t2 r).1 = 200 /\
     start <$> (ServeHTTP timeout "POST" hdr t1 t2 r).2 !! hdr = Some t1 /\
     (forall a, a <> hdr -> (ServeHTTP timeout "POST" hdr t1 t2 r).2 !! a = r !! a)) /\
  (forall m, m <> "GET" -> m <> "POST" -> ServeHTTP timeout m hdr t1 t2 r = (mkResp 405 None, r)).
Proof.
  split; [intros; apply alive_iff|].
  split; [|split; [|split]].
  - intros Ht. unfold ServeHTTP. simpl.
    destruct (aliveServers timeout t1 r) as [r1 l1] eqn:E1.
    destruct (aliveServers timeout t2 r1) as [r2 l2] eqn:E2. simpl.
    assert (Hlk : forall a, r2 !! a = match r !! a with
        | Some s => if alive timeout t2 s then Some s else None
        | None => None end).
    { intros a. pose proof (aliveServers_lookup timeout t2 r1 a) as H2.
      pose proof (aliveServers_lookup timeout t1 r a) as H1.
      rewrite E2 in H2. rewrite E1 in H1. simpl in *. rewrite H2, H1.
      destruct (r !! a) as [s|]; [|done].
      destruct (alive timeout t2 s) eqn:Ha2.
      - by rewrite (alive_earlier timeout t1 t2 s Ht Ha2), Ha2.
      - by destruct (alive timeout t1 s); [rewrite Ha2|]. }
    split; [done|]. split; [exact Hlk|].
    pose proof (aliveServers_list timeout t2 r1) as (Hs & Hnd & Hin).
    rewrite E2 in Hs, Hnd, Hin. simpl in *.
    exists l2. split; [done|]. split; [done|]. split; [done|].
    intros a. rewrite Hin.
    pose proof (aliveServers_lookup timeout t2 r1 a) as H2. rewrite E2 in H2. simpl in H2.
    rewrite H2. split.
    + intros (s & -> & ->). eauto.
    + destruct (r1 !! a) as [s|]; [|by intros []].
      destruct (alive timeout t2 s) eqn:Ha; [eauto|by intros []].
  - done.
  - intros Hne. unfold ServeHTTP. simpl.
    destruct (String.eqb_spec hdr "") as [->|_]; [done|]. simpl.
    split; [done|]. unfold putServer.
    destruct (r !! hdr) as [s|]; (split; [by rewrite lookup_insert_eq|]);
      intros a Ha; by rewrite lookup_insert_ne.
  - intros m Hg Hp. unfold ServeHTTP.
    destruct (String.eqb_spec m "GET"); [done|].
    destruct (String.eqb_spec m "POST"); done.
Qed.

End RegistryProofs.

(** ** Sending, receiving and dialing *)
Module ClientCallsProofs.
Import Client ClientCalls.

Lemma receive_step_pending h b cl :
  pending (receive_step h b cl).1 = delete (Codec.Seq h) (pending cl).
Proof.
  unfold receive_step, removeCall. simpl.
  destruct (pending cl !! Codec.Seq h); [|done].
  destruct (negb _); [done|]. by destruct b.
Qed.

(** [receive_step] only touches the call pending under the header's
    sequence number. *)
Lemma receive_step_other h b cl q :
  pending cl !! Codec.Seq h <> Some q ->
  calls (receive_step h b cl).1 !! q = calls cl !! q.
Proof.
  unfold receive_step, removeCall. simpl.
  destruct (pending cl !! Codec.Seq h) as [p|] eqn:E; [|done].
  intros Hne. assert (p <> q) by congruence.
  destruct (negb _); [|destruct b]; simpl; by rewrite !lookup_alter_ne.
Qed.

Lemma receive_step_hit h b cl p c :
  pending cl !! Codec.Seq h = Some p -> calls cl !! p = Some c ->
  exists c', calls (receive_step h b cl).1 !! p = Some c' /\
             c_done_fired c' = S (c_done_fired c).
Proof.
  intros Hp Hc. unfold receive_step, removeCall. simpl. rewrite Hp.
  destruct (negb _); [|destruct b]; simpl; rewrite !lookup_alter_eq, Hc;
    eexists; split; reflexivity.
Qed.

Lemma terminate_loop_notin err l hp p :
  p ∉ l.*2 -> terminate_loop err l hp !! p = hp !! p.
Proof.
  revert hp. induction l as [|[k q] l IH]; intros hp Hn; simpl in *; [done|].
  rewrite IH.
  - apply lookup_alter_ne. intros ->. apply Hn. apply elem_of_cons. by left.
  - intros Hin. apply Hn. apply elem_of_cons. by right.
Qed.

Lemma terminate_loop_in err l hp p c :
  NoDup l.*2 -> p ∈ l.*2 -> hp !! p = Some c ->
  terminate_loop err l hp !! p = Some (call_done (call_set_Error err c)).
Proof.
  revert hp. induction l as [|[k q] l IH]; intros hp Hnd Hin Hc; simpl in *.
  - by apply elem_of_nil in Hin.
  - apply NoDup_cons in Hnd as [Hq Hnd].
    apply elem_of_cons in Hin as [->|Hin].
    + rewrite terminate_loop_notin by done. by rewrite lookup_alter_eq, Hc.
    + apply IH; [done|done|]. rewrite lookup_alter_ne; [done|].
      intros ->. by apply Hq.
Qed.

Lemma NoDup_snd_inj (l : list (Z * positive)) :
  NoDup l -> (forall k1 k2 q, (k1, q) ∈ l -> (k2, q) ∈ l -> k1 = k2) -> NoDup l.*2.
Proof.
  induction l as [|[k q] l IH]; intros Hnd Hinj; simpl; [constructor|].
  apply NoDup_cons in Hnd as [Hn Hnd]. apply NoDup_cons. split.
  - intros Hin. apply list_elem_of_fmap in Hin as ([k' q'] & Hq & Hin'). simpl in Hq. subst q'.
    assert (k' = k) as ->.
    { apply (Hinj k' k q); apply elem_of_cons; [by right | by left]. }
    done.
  - apply IH; [done|]. intros k1 k2 q' H1 H2.
    apply (Hinj k1 k2 q'); apply elem_of_cons; by right.
Qed.

Lemma terminateCalls_untouched err cl p :
  (forall s, pending cl !! s <> Some p) ->
  calls (terminateCalls err cl) !! p = calls cl !! p.
Proof.
  intros Hn. unfold terminateCalls. simpl. apply terminate_loop_notin.
  intros Hin. apply list_elem_of_fmap in Hin as ([s q] & Hq & Hin). simpl in Hq. subst q.
  apply elem_of_map_to_list in Hin. by apply (Hn s).
Qed.

Lemma terminateCalls_in err cl s p c :
  (forall s1 s2 q, pending cl !! s1 = Some q -> pending cl !! s2 = Some q -> s1 = s2) ->
  pending cl !! s = Some p -> calls cl !! p = Some c ->
  calls (terminateCalls err cl) !! p = Some (call_done (call_set_Error err c)).
Proof.
  intros Hinj Hp Hc. unfold terminateCalls. simpl. apply terminate_loop_in; [| |done].
  - apply NoDup_snd_inj; [apply NoDup_map_to_list|].
    intros k1 k2 q H1 H2. apply elem_of_map_to_list in H1, H2. eauto.
  - apply list_elem_of_fmap. exists (s, p). split; [done|]. by apply elem_of_map_to_list.
Qed.

Lemma pending_delete_not_img (m : gmap Z positive) s p :
  (forall s1 s2 q, m !! s1 = Some q -> m !! s2 = Some q -> s1 = s2) ->
  m !! s = Some p -> forall s', delete s m !! s' <> Some p.
Proof.
  intros Hinj Hp s' H. apply lookup_delete_Some in H as [Hne H].
  apply Hne. by apply (Hinj s s' p).
Qed.

Lemma receive_untouched_aux rs eh cl p :
  (forall s, pending cl !! s <> Some p) ->
  calls (receive rs eh cl) !! p = calls cl !! p.
Proof.
  revert cl. induction rs as [|[h b] rs IH]; intros cl Hn; simpl.
  - by apply terminateCalls_untouched.
  - pose proof (receive_step_pending h b cl) as Hp.
    pose proof (receive_step_other h b cl p (Hn _)) as Ho.
    destruct (receive_step h b cl) as [cl1 e]. simpl in *.
    assert (Hn1 : forall s, pending cl1 !! s <> Some p).
    { intros s. rewrite Hp. destruct (decide (Codec.Seq h = s)) as [<-|Hs].
      - by rewrite lookup_delete_eq.
      - rewrite lookup_delete_ne by done. apply Hn. }
    destruct e as [m|].
    + rewrite terminateCalls_untouched by done. exact Ho.
    + rewrite IH by done. exact Ho.
Qed.

Lemma receive_shutdown rs eh cl : shutdown (receive rs eh cl) = true.
Proof.
  revert cl. induction rs as [|[h b] rs IH]; intros cl; simpl; [done|].
  destruct (receive_step h b cl) as [cl1 [m|]]; [done|apply IH].
Qed.

(** X1: [send] on a client that is closing or shut down writes nothing:
    the call gets [ErrShutdown] and its done signal, and the counter and
    the pending table stay as they are. *)
Theorem send_when_unavailable (cl : Client) (p : positive) (werr : option string)
    (Hu : closing cl || shutdown cl = true) :
  (send p werr cl).2 = None /\
  calls (send p werr cl).1 = alter (fun c => call_done (call_set_Error ErrShutdown c)) p (calls cl) /\
  pending (send p werr cl).1 = pending cl /\
  seq (send p werr cl).1 = seq cl /\
  closing (send p werr cl).1 = closing cl /\
  shutdown (send p werr cl).1 = shutdown cl.
Proof. unfold send, registerCall. rewrite Hu. simpl. repeat split. Qed.

Lemma send_when_unavailable_witness :
  closing (fst (Close (newClientCodec {[1%positive := Inputs.call0]})))
    || shutdown (fst (Close (newClientCodec {[1%positive := Inputs.call0]}))) = true /\
  (send 1 None (fst (Close (newClientCodec {[1%positive := Inputs.call0]})))).2 = None.
Proof.
  split; [reflexivity|].
  exact (proj1 (send_when_unavailable (fst (Close (newClientCodec {[1%positive := Inputs.call0]})))
    1 None eq_refl)).
Defined.

(** X2: [send] on an open client registers the call under the current
    counter value, moves the counter, and writes a header with the
    call's method, that sequence number and an empty error; the done
    signal is not fired. *)
Theorem send_registers_and_writes (cl : Client) (p : positive) (c : Call)
    (Hu : closing cl || shutdown cl = false) (Hc : calls cl !! p = Some c) :
  (send p None cl).2 = Some (Codec.mkHeader (c_ServiceMethod c) (seq cl) "") /\
  pending (send p None cl).1 = <[seq cl := p]> (pending cl) /\
  seq (send p None cl).1 = u64 (seq cl + 1) /\
  calls (send p None cl).1 !! p = Some (call_set_Seq (seq cl) c) /\
  (forall q, q <> p -> calls (send p None cl).1 !! q = calls cl !! q).
Proof.
  unfold send, registerCall. rewrite Hu. simpl.
  rewrite lookup_alter_eq, Hc. simpl.
  split; [done|]. split; [done|]. split; [done|]. split; [done|].
  intros q Hq. by rewrite lookup_alter_ne.
Qed.

Lemma send_registers_and_writes_witness :
  closing (newClientCodec {[1%positive := Inputs.call0]})
    || shutdown (newClientCodec {[1%positive := Inputs.call0]}) = false /\
  calls (newClientCodec {[1%positive := Inputs.call0]}) !! 1%positive = Some Inputs.call0 /\
  (send 1 None (newClientCodec {[1%positive := Inputs.call0]})).2
    = Some (Codec.mkHeader "Foo.Sum" 1 "").
Proof.
  split; [reflexivity|]. split; [reflexivity|].
  exact (proj1 (send_registers_and_writes (newClientCodec {[1%positive := Inputs.call0]})
    1 Inputs.call0 eq_refl eq_refl)).
Defined.

(** X3: when [Write] fails with [we], [send] closes the connection,
    takes the call out of the pending table and completes it with [we];
    the counter has still moved. *)
Theorem send_write_failure (cl : Client) (p : positive) (c : Call) (we : string)
    (Hu : closing cl || shutdown cl = false) (Hc : calls cl !! p = Some c) :
  (send p (Some we) cl).2 = Some (Codec.mkHeader (c_ServiceMethod c) (seq cl) "") /\
  pending (send p (Some we) cl).1 = delete (seq cl) (pending cl) /\
  seq (send p (Some we) cl).1 = u64 (seq cl + 1) /\
  cc_closed (send p (Some we) cl).1 = true /\
  calls (send p (Some we) cl).1 !! p
    = Some (call_done (call_set_Error we (call_set_Seq (seq cl) c))).
Proof.
  unfold send, registerCall. rewrite Hu. simpl.
  rewrite lookup_alter_eq, Hc. simpl. rewrite lookup_insert_eq. simpl.
  split; [done|]. split; [by rewrite delete_insert_eq|]. split; [done|]. split; [done|].
  by rewrite lookup_alter_eq, lookup_alter_eq, Hc.
Qed.

Lemma send_write_failure_witness :
  closing (newClientCodec {[1%positive := Inputs.call0]})
    || shutdown (newClientCodec {[1%positive := Inputs.call0]}) = false /\
  calls (newClientCodec {[1%positive := Inputs.call0]}) !! 1%positive = Some Inputs.call0 /\
  pending (send 1 (Some "broken pipe") (newClientCodec {[1%positive := Inputs.call0]})).1
    = delete 1 (pending (newClientCodec {[1%positive := Inputs.call0]})).
Proof.
  split; [reflexivity|]. split; [reflexivity|].
  exact (proj1 (proj2 (send_write_failure (newClientCodec {[1%positive := Inputs.call0]})
    1 Inputs.call0 "broken pipe" eq_refl eq_refl))).
Defined.

(** [fmt.Errorf] copies a format without ['%'] unchanged. *)
Lemma doPrintf_plain n s :
  (String.length s <= n)%nat -> GoStrings.has_byte "%"%char s = false -> doPrintf n s = s.
Proof.
  revert n. induction s as [|c s IH]; intros n Hn Hb; destruct n as [|n]; simpl in *; try done; [lia|].
  apply orb_false_iff in Hb as [Hc Hb]. rewrite Hc. simpl. rewrite IH; [done|lia|done].
Qed.

Lemma Errorf_plain s : GoStrings.has_byte "%"%char s = false -> Errorf s = s.
Proof. apply doPrintf_plain. lia. Qed.

(** X4: a call sent on an open client, answered by the server's
    [respond] for the method [f] it names, and read back by [receive]:
    the pending table is back as before the call; on success the reply
    slot holds the method's result; on a non-empty handler error [e] the
    call's error is [fmt.Errorf(e)], which is [e] itself when [e] has no
    ['%']; the done signal fires once. *)
Theorem call_round_trip (cl : Client) (p : positive) (c : Call) (sv : Server.services)
    (f : Server.method) (arg : Z) (b : body_outcome)
    (Hu : closing cl || shutdown cl = false) (Hc : calls cl !! p = Some c)
    (Hfree : pending cl !! seq cl = None)
    (Hf : Server.findService sv (c_ServiceMethod c) = inl f) :
  (send p None cl).2 = Some (Codec.mkHeader (c_ServiceMethod c) (seq cl) "") /\
  pending (receive_step (ServerConn.respond sv (Codec.mkHeader (c_ServiceMethod c) (seq cl) "") arg).1
             b (send p None cl).1).1 = pending cl /\
  match f arg with
  | inl r =>
      (ServerConn.respond sv (Codec.mkHeader (c_ServiceMethod c) (seq cl) "") arg).2 = Server.Val r /\
      (b = BodyOk r ->
       calls (receive_step (ServerConn.respond sv (Codec.mkHeader (c_ServiceMethod c) (seq cl) "") arg).1
                b (send p None cl).1).1 !! p
         = Some (mkCall (seq cl) (c_ServiceMethod c) (Some r) (c_Error c) (S (c_done_fired c))))
  | inr e =>
      (ServerConn.respond sv (Codec.mkHeader (c_ServiceMethod c) (seq cl) "") arg).2 = Server.Invalid /\
      (e <> "" ->
       calls (receive_step (ServerConn.respond sv (Codec.mkHeader (c_ServiceMethod c) (seq cl) "") arg).1
                b (send p None cl).1).1 !! p
         = Some (mkCall (seq cl) (c_ServiceMethod c) (c_Reply c) (Some (Errorf e)) (S (c_done_fired c)))) /\
      (GoStrings.has_byte "%"%char e = false -> Errorf e = e)
  end.
Proof.
  unfold send, registerCall. rewrite Hu. simpl.
  rewrite lookup_alter_eq, Hc. simpl.
  unfold ServerConn.respond. simpl. rewrite Hf. unfold Server.handleRequest. simpl.
  split; [done|].
  destruct (f arg) as [r|e]; unfold receive_step, removeCall; simpl;
    rewrite lookup_insert_eq; simpl.
  - split; [destruct b; by rewrite delete_insert_id|].
    split; [done|]. intros ->. simpl.
    by rewrite lookup_alter_eq, lookup_alter_eq, lookup_alter_eq, Hc.
  - destruct (String.eqb_spec e "") as [->|He]; simpl.
    + split; [destruct b; by rewrite delete_insert_id|].
      split; [done|]. split; [by intros []|done].
    + split; [by rewrite delete_insert_id|].
      split; [done|]. split; [|apply Errorf_plain]. intros _.
      by rewrite lookup_alter_eq, lookup_alter_eq, lookup_alter_eq, Hc.
Qed.

Lemma call_round_trip_witness :
  closing (newClientCodec {[1%positive := Inputs.call0]})
    || shutdown (newClientCodec {[1%positive := Inputs.call0]}) = false /\
  calls (newClientCodec {[1%positive := Inputs.call0]}) !! 1%positive = Some Inputs.call0 /\
  pending (newClientCodec {[1%positive := Inputs.call0]})
    !! seq (newClientCodec {[1%positive := Inputs.call0]}) = None /\
  Server.findService Inputs.sv_foo (c_ServiceMethod Inputs.call0)
    = inl (fun v : Z => inl (v + v) : Z + string) /\
  (send 1 None (newClientCodec {[1%positive := Inputs.call0]})).2
    = Some (Codec.mkHeader "Foo.Sum" 1 "").
Proof.
  split; [reflexivity|]. split; [reflexivity|]. split; [reflexivity|].
  split; [vm_compute; reflexivity|].
  exact (proj1 (call_round_trip (newClientCodec {[1%positive := Inputs.call0]}) 1 Inputs.call0
    Inputs.sv_foo (fun v : Z => inl (v + v) : Z + string) 3 (BodyOk 6)
    eq_refl eq_refl eq_refl ltac:(vm_compute; reflexivity))).
Defined.

(** X5: [receive] never touches a call that is not in the pending
    table (for instance one [CallWithTimeout] removed on cancellation):
    a late response for it is read and dropped. *)
Theorem receive_skips_removed_calls (rs : list (Codec.Header * body_outcome)) (eh : string)
    (cl : Client) (p : positive)
    (Hn : forall s, pending cl !! s <> Some p) :
  calls (receive rs eh cl) !! p = calls cl !! p.
Proof. exact (receive_untouched_aux rs eh cl p Hn). Qed.

Lemma receive_skips_removed_calls_witness :
  (forall s, pending (removeCall 1 (send 1 None (newClientCodec {[1%positive := Inputs.call0]})).1).1
               !! s <> Some 1%positive) /\
  calls (receive [(Codec.mkHeader "Foo.Sum" 1 "", BodyOk 6)] "EOF"
           (removeCall 1 (send 1 None (newClientCodec {[1%positive := Inputs.call0]})).1).1) !! 1%positive
    = Some (call_set_Seq 1 Inputs.call0).
Proof.
  assert (H : forall s, pending (removeCall 1 (send 1 None (newClientCodec {[1%positive := Inputs.call0]})).1).1
               !! s <> Some 1%positive).
  { intros s. vm_compute. destruct s; discriminate. }
  split; [exact H|].
  rewrite (receive_skips_removed_calls [(Codec.mkHeader "Foo.Sum" 1 "", BodyOk 6)] "EOF" _ 1 H).
  vm_compute. reflexivity.
Defined.

(** X6: when no two sequence numbers share a call, every call pending
    when [receive] starts has its done signal fired exactly once by the
    time [receive] returns, whatever the responses (unknown or repeated
    sequence numbers, error headers, bad bodies) and however the stream
    ends; the client is then shut down. *)
Theorem receive_completes_pending_once (rs : list (Codec.Header * body_outcome)) (eh : string)
    (cl : Client) (s : Z) (p : positive) (c : Call)
    (Hinj : forall s1 s2 q, pending cl !! s1 = Some q -> pending cl !! s2 = Some q -> s1 = s2)
    (Hp : pending cl !! s = Some p) (Hc : calls cl !! p = Some c) :
  (exists c', calls (receive rs eh cl) !! p = Some c' /\ c_done_fired c' = S (c_done_fired c)) /\
  shutdown (receive rs eh cl) = true.
Proof.
  split; [|apply receive_shutdown].
  revert cl Hinj Hp Hc. induction rs as [|[h b] rs IH]; intros cl Hinj Hp Hc; simpl.
  - eexists. split; [by apply (terminateCalls_in eh cl s p c)|done].
  - pose proof (receive_step_pending h b cl) as Hpend.
    destruct (decide (Codec.Seq h = s)) as [<-|Hs].
    + destruct (receive_step_hit h b cl p c Hp Hc) as (c' & Hc' & Hd).
      pose proof (pending_delete_not_img (pending cl) (Codec.Seq h) p Hinj Hp) as Hn.
      destruct (receive_step h b cl) as [cl1 e]. simpl in *. rewrite <- Hpend in Hn.
      exists c'. split; [|done].
      destruct e as [m|].
      * rewrite terminateCalls_untouched by done. exact Hc'.
      * rewrite receive_untouched_aux by done. exact Hc'.
    + assert (Hne : pending cl !! Codec.Seq h <> Some p).
      { intros H. apply Hs. by apply (Hinj _ _ p). }
      pose proof (receive_step_other h b cl p Hne) as Ho.
      destruct (receive_step h b cl) as [cl1 e]. simpl in *.
      assert (Hp1 : pending cl1 !! s = Some p) by (rewrite Hpend, lookup_delete_ne; done).
      assert (Hinj1 : forall s1 s2 q, pending cl1 !! s1 = Some q -> pending cl1 !! s2 = Some q -> s1 = s2).
      { intros s1 s2 q H1 H2. rewrite Hpend in H1, H2.
        apply lookup_delete_Some in H1 as [_ H1]. apply lookup_delete_Some in H2 as [_ H2].
        by apply (Hinj s1 s2 q). }
      rewrite <- Ho in Hc.
      destruct e as [m|].
      * eexists. split; [by apply (terminateCalls_in m cl1 s p c)|done].
      * by apply IH.
Qed.

Lemma receive_completes_pending_once_witness :
  (forall s1 s2 q, pending (send 1 None (newClientCodec {[1%positive := Inputs.call0]})).1 !! s1 = Some q ->
     pending (send 1 None (newClientCodec {[1%positive := Inputs.call0]})).1 !! s2 = Some q -> s1 = s2) /\
  pending (send 1 None (newClientCodec {[1%positive := Inputs.call0]})).1 !! 1 = Some 1%positive /\
  calls (send 1 None (newClientCodec {[1%positive := Inputs.call0]})).1 !! 1%positive
    = Some (call_set_Seq 1 Inputs.call0) /\
  shutdown (receive [(Codec.mkHeader "Foo.Sum" 7 "", BodyOk 1); (Codec.mkHeader "Foo.Sum" 1 "", BodyOk 6)]
              "EOF" (send 1 None (newClientCodec {[1%positive := Inputs.call0]})).1) = true.
Proof.
  assert (Hinj : forall s1 s2 q, pending (send 1 None (newClientCodec {[1%positive := Inputs.call0]})).1 !! s1 = Some q ->
     pending (send 1 None (newClientCodec {[1%positive := Inputs.call0]})).1 !! s2 = Some q -> s1 = s2).
  { assert (E : pending (send 1 None (newClientCodec {[1%positive := Inputs.call0]})).1
                 = {[1 := 1%positive]}) by (vm_compute; reflexivity).
    intros s1 s2 q. rewrite E. intros H1 H2. apply lookup_singleton_Some in H1 as [<- _].
    apply lookup_singleton_Some in H2 as [<- _]. reflexivity. }
  split; [exact Hinj|]. split; [vm_compute; reflexivity|]. split; [vm_compute; reflexivity|].
  exact (proj2 (receive_completes_pending_once
    [(Codec.mkHeader "Foo.Sum" 7 "", BodyOk 1); (Codec.mkHeader "Foo.Sum" 1 "", BodyOk 6)] "EOF"
    (send 1 None (newClientCodec {[1%positive := Inputs.call0]})).1 1 1 (call_set_Seq 1 Inputs.call0)
    Hinj ltac:(vm_compute; reflexivity) ltac:(vm_compute; reflexivity))).
Defined.

End ClientCallsProofs.

(** ** Address parsing and the option handshake *)
Module DialProofs.
Import Client Options ClientCalls GoStrings.

Lemma split_char_nonempty c s : exists w ws, split_char c s = w :: ws.
Proof.
  induction s as [|a s IH]; simpl; [eauto|].
  destruct IH as (w & ws & ->). destruct (Ascii.eqb a c); eauto.
Qed.

Lemma split_char_no_byte c a : has_byte c a = false -> split_char c a = [a].
Proof.
  induction a as [|x a IH]; simpl; [done|].
  intros H. apply orb_false_iff in H as [H1 H2]. rewrite H1, IH by done. done.
Qed.

(** Splitting at a separator between [x] and [y] splits them apart. *)
Lemma split_char_sep_app c x y :
  split_char c (x +:+ String c y) = split_char c x ++ split_char c y.
Proof.
  induction x as [|a x IH]; simpl.
  - by rewrite Ascii.eqb_refl.
  - rewrite IH. destruct (Ascii.eqb a c); [done|].
    destruct (split_char_nonempty c x) as (w & ws & ->). done.
Qed.

Lemma split_char_length c s : (1 <= length (split_char c s))%nat.
Proof. destruct (split_char_nonempty c s) as (w & ws & ->). simpl. lia. Qed.

Lemma parseOptions_magic opts o :
  parseOptions opts = inl o -> OMagicNumber o = MagicNumber.
Proof.
  unfold parseOptions. destruct opts as [|[o1|] rest].
  - by intros [= <-].
  - destruct (negb _); [discriminate|]. intros [= <-].
    by destruct (String.eqb _ _).
  - by intros [= <-].
Qed.

(** X7: [XDial] accepts exactly the addresses with one ['@']: the part
    before it is the protocol (["http"] goes to [DialHTTP] over ["tcp"],
    any other to [DialWithTimeout] with that network) and the part after
    it the address; with no ['@'], or with two or more, it returns the
    wrong-format error. *)
Theorem XDial_format (rpcAddr protocol addr : string) (opts : list (option Option)) :
  (has_byte at_sign protocol = false -> has_byte at_sign addr = false ->
     XDial (protocol +:+ String at_sign addr) opts =
       if String.eqb protocol "http" then inl (ViaDialHTTP "tcp" addr opts)
       else inl (ViaDialWithTimeout protocol addr opts)) /\
  (has_byte at_sign rpcAddr = false ->
     XDial rpcAddr opts
       = inr ("rpc client err: wrong format '" +:+ rpcAddr +:+ "', expect protocol@addr")) /\
  (forall m, XDial (protocol +:+ String at_sign (m +:+ String at_sign addr)) opts
       = inr ("rpc client err: wrong format '"
              +:+ (protocol +:+ String at_sign (m +:+ String at_sign addr))
              +:+ "', expect protocol@addr")).
Proof.
  split; [|split].
  - intros Hp Ha. unfold XDial.
    rewrite split_char_sep_app, !split_char_no_byte by done. done.
  - intros H. unfold XDial. by rewrite split_char_no_byte.
  - intros m. unfold XDial. rewrite !split_char_sep_app.
    pose proof (split_char_length at_sign protocol).
    pose proof (split_char_length at_sign m).
    pose proof (split_char_length at_sign addr).
    assert (Hl : (3 <= length (split_char at_sign protocol ++ split_char at_sign m
                                ++ split_char at_sign addr))%nat) by (rewrite !length_app; lia).
    destruct (split_char at_sign protocol ++ split_char at_sign m ++ split_char at_sign addr)
      as [|x1 [|x2 [|x3 xs]]]; simpl in Hl; try lia; done.
Qed.

(** X8: the option [Dial] writes always passes the server's checks: the
    server echoes it and serves the connection, and [Dial] returns a
    client once it reads the echo back.  A single option is written iff
    its codec is gob or empty (and encoding succeeds): [NewClient]
    refuses any other codec, JSON included, before writing. *)
Theorem dial_option_handshake (opts : list (option Option)) (dial_err enc_err : option string)
    (reply : Option + string) (h : gmap positive Call) (sv : Server.services)
    (st : list Server.frame) :
  (forall o, (Dial opts dial_err enc_err reply h).2 = Some o ->
     server_accepts o = true /\
     ServerConn.ServeConn (inl o) None sv st = (Some o, (Server.serve sv st).1) /\
     (Dial opts dial_err enc_err (inl o) h).1 = inl (newClientCodec h)) /\
  (forall o, (exists o', (Dial [Some o] None enc_err reply h).2 = Some o') <->
     enc_err = None /\ (OCodecType o = "" \/ OCodecType o = Codec.GobType)).
Proof.
  split.
  - intros o. unfold Dial.
    destruct (parseOptions opts) as [o0|e] eqn:Ep; [|discriminate].
    destruct dial_err; [discriminate|]. unfold NewClient.
    destruct (negb (Codec.NewCodecFuncMap_has (OCodecType o0))) eqn:Ec; [discriminate|].
    destruct enc_err; [discriminate|].
    apply negb_false_iff in Ec. pose proof (parseOptions_magic opts o0 Ep) as Hm.
    assert (Ho : (match reply with
                  | inl _ => (inl (newClientCodec h), Some o0, false)
                  | inr e => (inr e, Some o0, true)
                  end : (Client + string) * option Option * bool).1.2 = Some o0)
      by (by destruct reply).
    destruct reply; simpl; intros [= <-];
      (split; [unfold server_accepts; by rewrite Hm, Z.eqb_refl, Ec|]);
      (split; [unfold ServerConn.ServeConn; by rewrite Hm, Z.eqb_refl, Ec|done]).
  - intros o. unfold Dial. rewrite OptionsProofs.parseOptions_single. unfold NewClient. simpl.
    unfold Codec.NewCodecFuncMap_has.
    destruct (String.eqb_spec (OCodecType o) "") as [E|E]; simpl.
    + destruct enc_err; [split; [by intros (? & ?)|by intros [? _]]|].
      split; [intros _; auto|]. intros _. destruct reply; eauto.
    + destruct (String.eqb_spec (OCodecType o) Codec.GobType) as [G|G]; simpl.
      * destruct enc_err; [split; [by intros (? & ?)|by intros [? _]]|].
        split; [intros _; auto|]. intros _. destruct reply; eauto.
      * split; [by intros (? & ?)|]. intros [_ [?|?]]; congruence.
Qed.

End DialProofs.

(** ** Registration, method lookup, serving and HTTP *)
Module ServerConnProofs.
Import Codec Server ServerConn GoStrings.

Lemma last_index_from_app c x y i acc :
  last_index_from c (x +:+ y) i acc = last_index_from c y (i + String.length x) (last_index_from c x i acc).
Proof.
  revert i acc. induction x as [|a x IH]; intros i acc; simpl.
  - by rewrite Nat.add_0_r.
  - rewrite IH. f_equal. lia.
Qed.

Lemma last_index_from_no_byte c m i acc :
  has_byte c m = false -> last_index_from c m i acc = acc.
Proof.
  revert i acc. induction m as [|a m IH]; intros i acc; simpl; [done|].
  intros H. apply orb_false_iff in H as [H1 H2]. rewrite H1. by apply IH.
Qed.

Lemma substring_prefix x y : substring 0 (String.length x) (x +:+ y) = x.
Proof. induction x as [|a x IH]; simpl; [by destruct y|by rewrite IH]. Qed.

Lemma substring_all y : substring 0 (String.length y) y = y.
Proof. induction y as [|a y IH]; simpl; [done|by rewrite IH]. Qed.

Lemma substring_after x c y k :
  substring (S (String.length x)) k (x +:+ String c y) = substring 0 k y.
Proof. induction x as [|a x IH]; simpl; [done|exact IH]. Qed.

Lemma length_append x y : String.length (x +:+ y) = (String.length x + String.length y)%nat.
Proof. induction x as [|a x IH]; simpl; [done|by rewrite IH]. Qed.

Lemma frames_of_cons h v reqs :
  frames_of ((h, v) :: reqs) = FHeader h :: FBody v :: frames_of reqs.
Proof. reflexivity. Qed.

Lemma length_frames_of reqs : length (frames_of reqs) = (2 * length reqs)%nat.
Proof.
  induction reqs as [|[h v] reqs IH]; [done|].
  rewrite frames_of_cons. simpl. rewrite IH. lia.
Qed.

Lemma serve_events_well_formed sv reqs fuel :
  Forall (fun hv => exists m, findService sv (ServiceMethod hv.1) = inl m) reqs ->
  (length reqs < fuel)%nat ->
  exists rqs,
    serve_events fuel sv (frames_of reqs) = (List.map ESpawn rqs, true) /\
    Forall2 (fun hv req => r_h req = hv.1 /\ handleRequest req = respond sv hv.1 hv.2) reqs rqs.
Proof.
  revert fuel. induction reqs as [|[h v] reqs IH]; intros fuel Hall Hf.
  - destruct fuel as [|fuel]; [lia|]. exists []. split; [done|constructor].
  - destruct fuel as [|fuel]; [lia|].
    apply Forall_cons in Hall as [(m & Hm) Hall]. simpl in Hm.
    destruct (IH fuel Hall ltac:(simpl in Hf; lia)) as (rqs & Hev & Hrq).
    exists (mkRequest h (Some m) (Some v) :: rqs).
    rewrite frames_of_cons. cbn [serve_events]. unfold readRequest. simpl. rewrite Hm. simpl.
    rewrite Hev. split; [done|]. constructor; [|exact Hrq].
    split; [done|]. unfold respond. simpl. by rewrite Hm.
Qed.

Lemma sched_spawns timeout dur rqs run w :
  sched timeout dur (List.map ESpawn rqs) run w ->
  exists outs, Forall2 (fun req o => In o (handler_outputs timeout dur req)) rqs outs /\
    w ≡ₚ outs ++ run.
Proof.
  intros H. remember (List.map ESpawn rqs) as evs eqn:Hevs. revert rqs Hevs.
  induction H as [|r evs run w H IH|req o evs run w Ho H IH|r1 r2 o evs w H IH];
    intros rqs Hevs.
  - destruct rqs; [|discriminate]. exists []. split; [constructor|done].
  - destruct rqs; discriminate.
  - destruct rqs as [|req' rqs]; [discriminate|]. injection Hevs as <- Hevs.
    destruct (IH rqs Hevs) as (outs & Hf & Hp).
    exists (o :: outs). split; [by constructor|]. rewrite Hp. simpl.
    symmetry. apply Permutation_middle.
  - destruct (IH rqs Hevs) as (outs & Hf & Hp).
    exists outs. split; [done|]. rewrite Hp, (app_assoc outs r1 (o :: r2)), <- Permutation_middle, <- app_assoc. done.
Qed.

Lemma sched_sequential timeout dur rqs :
  sched timeout dur (List.map ESpawn rqs) [] (List.map handleRequest rqs).
Proof.
  induction rqs as [|req rqs IH]; simpl; [constructor|].
  eapply sched_spawn; [left; reflexivity|].
  apply (sched_write timeout dur [] [] (handleRequest req)). exact IH.
Qed.

Lemma Forall2_map_eq {A B C} (f : A -> C) (g : B -> C) (l : list A) (l' : list B) :
  Forall2 (fun a b => f a = g b) l l' -> List.map g l' = List.map f l.
Proof. induction 1; simpl; congruence. Qed.

(** X9: [Register] of a receiver whose type name is unexported exits
    the process through [newService]'s [log.Fatalf] (whether or not the
    name is taken).  For an exported name it succeeds iff the name is
    free, storing the receiver's methods; registering a second receiver
    under the same name then fails with ["rpc: service already defined:"
    ++ name] and leaves the service map as it was. *)
Theorem Register_duplicate (name : string) (ms ms' : gmap string method) (sv : services) :
  Register false name ms sv = inr ("rpc server: " +:+ name +:+ " is not a valid service name") /\
  match Register true name ms sv with
  | inl (sv1, e1) =>
      (e1 = None <-> sv !! name = None) /\
      sv1 !! name = Some (default ms (sv !! name)) /\
      Register true name ms' sv1 = inl (sv1, Some ("rpc: service already defined:" +:+ name))
  | inr _ => False
  end.
Proof.
  split; [reflexivity|].
  unfold Register. cbn [negb]. destruct (sv !! name) as [ms0|] eqn:E.
  - rewrite E. split; [split; discriminate|]. done.
  - assert (Hl : <[name:=ms]> sv !! name = Some ms) by apply lookup_insert_eq.
    rewrite Hl. done.
Qed.

(** X10: a name [service ++ "." ++ method] whose method part has no
    ['.'] is looked up by [findService] as that service and that method
    (the service part may contain dots: the split is at the last one). *)
Theorem findService_qualified (sv : services) (service meth : string)
    (Hm : has_byte dot meth = false) :
  findService sv (service +:+ String dot meth) =
    match sv !! service with
    | None => inr ("rpc server: can't find service " +:+ service)
    | Some ms =>
        match ms !! meth with
        | None => inr ("rpc server: can't find method " +:+ meth)
        | Some f => inl f
        end
    end.
Proof.
  unfold findService, LastIndex.
  rewrite last_index_from_app. cbn [last_index_from]. rewrite ?Ascii.eqb_refl.
  rewrite last_index_from_no_byte by done. rewrite Nat.add_0_l.
  unfold prefix_to, suffix_after.
  rewrite substring_prefix, substring_after, length_append. simpl.
  replace (String.length service + S (String.length meth) - S (String.length service))%nat
    with (String.length meth) by lia.
  by rewrite substring_all.
Qed.

Lemma findService_qualified_witness :
  has_byte dot "Sum" = false /\
  findService Inputs.sv_foo ("Foo" +:+ String dot "Sum") = inl (fun v : Z => inl (v + v) : Z + string).
Proof.
  split; [reflexivity|].
  rewrite (findService_qualified Inputs.sv_foo "Foo" "Sum" eq_refl). vm_compute. reflexivity.
Defined.

(** X11: on a stream of well-formed requests (each header followed by
    its argument body, each naming a registered method), whatever the
    schedule of the concurrent handlers, every request gets exactly one
    response and the codec is closed once all are sent.  With
    [HandleTimeout = 0] the responses are [respond]'s, one per request,
    in an order the schedule decides (the request order is one of them);
    with another timeout each response is [respond]'s or the request's
    header with the timeout error. *)
Theorem serve_well_formed (sv : services) (reqs : list (Header * Z)) (timeout : Z) (dur : string)
    (Hall : Forall (fun hv => exists m, findService sv (ServiceMethod hv.1) = inl m) reqs) :
  (serve_events (S (length (frames_of reqs))) sv (frames_of reqs)).2 = true /\
  sched timeout dur (serve_events (S (length (frames_of reqs))) sv (frames_of reqs)).1 []
    (List.map (fun hv => respond sv hv.1 hv.2) reqs) /\
  (forall w, sched timeout dur (serve_events (S (length (frames_of reqs))) sv (frames_of reqs)).1 [] w ->
     exists outs, w ≡ₚ outs /\
       Forall2 (fun hv o => o = respond sv hv.1 hv.2 \/
                  (timeout <> 0 /\ o = (with_error hv.1 (timeout_error dur), Invalid))) reqs outs) /\
  (timeout = 0 ->
   forall w, sched timeout dur (serve_events (S (length (frames_of reqs))) sv (frames_of reqs)).1 [] w ->
     w ≡ₚ List.map (fun hv => respond sv hv.1 hv.2) reqs).
Proof.
  destruct (serve_events_well_formed sv reqs (S (length (frames_of reqs))) Hall
              ltac:(rewrite length_frames_of; lia)) as (rqs & -> & Hrq).
  cbn [fst snd].
  assert (Hall2 : forall w, sched timeout dur (List.map ESpawn rqs) [] w ->
     exists outs, w ≡ₚ outs /\
       Forall2 (fun hv o => o = respond sv hv.1 hv.2 \/
                  (timeout <> 0 /\ o = (with_error hv.1 (timeout_error dur), Invalid))) reqs outs).
  { intros w Hw. destruct (sched_spawns timeout dur rqs [] w Hw) as (outs & Hf & Hp).
    exists outs. split; [by rewrite app_nil_r in Hp|].
    clear Hw Hp Hall. revert outs Hf. induction Hrq as [|hv req reqs rqs [Hh Hr] Hrq IH];
      intros outs Hf; inversion Hf as [|? o ? outs' Ho Hf']; subst; [constructor|].
    constructor; [|apply IH; assumption].
    unfold handler_outputs in Ho. rewrite <- Hr, <- Hh.
    destruct (Z.eqb_spec timeout 0) as [Ht|Ht]; simpl in Ho.
    - destruct Ho as [Ho|[]]. by left.
    - destruct Ho as [Ho|[Ho|[]]]; [by left|by right]. }
  split; [done|]. split; [|split; [exact Hall2|]].
  - replace (List.map (fun hv => respond sv hv.1 hv.2) reqs) with (List.map handleRequest rqs);
      [apply sched_sequential|].
    apply Forall2_map_eq. eapply Forall2_impl; [exact Hrq|]. intros hv req [_ Hr]. symmetry. exact Hr.
  - intros Ht w Hw. destruct (Hall2 w Hw) as (outs & Hp & Hf). rewrite Hp.
    assert (Hm : List.map id outs = List.map (fun hv => respond sv hv.1 hv.2) reqs).
    { apply Forall2_map_eq. eapply Forall2_impl; [exact Hf|].
      intros hv o [Ho|[Hne _]]; [by rewrite Ho|lia]. }
    by rewrite <- Hm, map_id.
Qed.

(** Two requests: their handlers may answer in the reverse order. *)
Lemma serve_well_formed_witness :
  Forall (fun hv => exists m, findService Inputs.sv_foo (ServiceMethod hv.1) = inl m)
    [(mkHeader "Foo.Sum" 1 "", 3); (mkHeader "Foo.Sum" 2 "", 4)] /\
  sched 0 "" (serve_events 5 Inputs.sv_foo
                (frames_of [(mkHeader "Foo.Sum" 1 "", 3); (mkHeader "Foo.Sum" 2 "", 4)])).1 []
    [(mkHeader "Foo.Sum" 2 "", Val 8); (mkHeader "Foo.Sum" 1 "", Val 6)] /\
  [(mkHeader "Foo.Sum" 2 "", Val 8); (mkHeader "Foo.Sum" 1 "", Val 6)]
    ≡ₚ List.map (fun hv => respond Inputs.sv_foo hv.1 hv.2)
         [(mkHeader "Foo.Sum" 1 "", 3); (mkHeader "Foo.Sum" 2 "", 4)].
Proof.
  assert (H : Forall (fun hv => exists m, findService Inputs.sv_foo (ServiceMethod hv.1) = inl m)
    [(mkHeader "Foo.Sum" 1 "", 3); (mkHeader "Foo.Sum" 2 "", 4)]).
  { repeat constructor; eexists; vm_compute; reflexivity. }
  assert (Hs : sched 0 "" (serve_events 5 Inputs.sv_foo
                (frames_of [(mkHeader "Foo.Sum" 1 "", 3); (mkHeader "Foo.Sum" 2 "", 4)])).1 []
    [(mkHeader "Foo.Sum" 2 "", Val 8); (mkHeader "Foo.Sum" 1 "", Val 6)]).
  { vm_compute.
    apply (sched_spawn _ _ _ (mkHeader "Foo.Sum" 1 "", Val 6)); [left; reflexivity|].
    apply (sched_spawn _ _ _ (mkHeader "Foo.Sum" 2 "", Val 8)); [left; reflexivity|].
    apply (sched_write _ _ [] [(mkHeader "Foo.Sum" 1 "", Val 6)]).
    apply (sched_write _ _ [] []). constructor. }
  split; [exact H|]. split; [exact Hs|].
  exact (proj2 (proj2 (proj2 (serve_well_formed Inputs.sv_foo _ 0 "" H))) eq_refl _ Hs).
Defined.

(** X12: [ServeHTTP] answers any method but [CONNECT] with [405] and
    ["405 must CONNECT\n"]; on a hijacked [CONNECT] it writes a status
    line whose [Status], as [http.ReadResponse] reads it, is exactly the
    one [NewHTTPClient] waits for, so the client goes on to [NewClient];
    then it serves the connection as [ServeConn]. *)
Theorem ServeHTTP_connect (method : string) (hijack_ok : bool) (dec : Options.Option + string)
    (enc_err : option string) (sv : services) (st : list frame) {C : Type} (nc : C + string) :
  (method <> "CONNECT" ->
     ServeHTTP method hijack_ok dec enc_err sv st
       = NotAllowed 405 "text/plain; charset=utf-8" ("405 must CONNECT" +:+ HTTPClient.LF)) /\
  ServeHTTP "CONNECT" false dec enc_err sv st = HijackFailed /\
  exists pre,
    ServeHTTP "CONNECT" true dec enc_err sv st
      = Connected pre (ServeConn dec enc_err sv st).1 (ServeConn dec enc_err sv st).2 /\
    response_status pre = Some HTTPClient.connected /\
    HTTPClient.NewHTTPClient
      (match response_status pre with
       | Some s => HTTPClient.RespStatus s
       | None => HTTPClient.RespErr "malformed HTTP response"
       end) nc = (HTTPClient.connect_request, nc, true).
Proof.
  split; [|split].
  - intros H. unfold ServeHTTP. by destruct (String.eqb_spec method "CONNECT").
  - reflexivity.
  - unfold ServeHTTP. simpl. destruct (ServeConn dec enc_err sv st) as [e rs].
    eexists. split; [reflexivity|]. split; [vm_compute; reflexivity|].
    vm_compute. reflexivity.
Qed.

End ServerConnProofs.

(** ** Server selection of the multi-server discovery *)
Module SelectionProofs.
Import Discovery Selection.

Lemma land_bound a b : 0 <= a -> 0 <= b -> 0 <= Z.land a b <= b.
Proof.
  intros Ha Hb. split; [apply Z.land_nonneg; lia|].
  rewrite <- (Z2N.id a Ha), <- (Z2N.id b Hb), <- N2Z.inj_land.
  apply N2Z.inj_le, N.land_le_r.
Qed.

Lemma Int63_range u : 0 <= Int63 u.
Proof. unfold Int63. apply Z.land_nonneg. lia. Qed.

Lemma int31n_loop_range mx n draws v :
  0 < n -> int31n_loop mx n draws = Some v -> 0 <= v < n.
Proof.
  intros Hn. induction draws as [|u draws IH]; cbn [int31n_loop]; [discriminate|].
  destruct (_ <=? mx); [|exact IH]. intros [= <-]. apply Z.mod_pos_bound. lia.
Qed.

Lemma int63n_loop_range mx n draws v :
  0 < n -> int63n_loop mx n draws = Some v -> 0 <= v < n.
Proof.
  intros Hn. induction draws as [|u draws IH]; cbn [int63n_loop]; [discriminate|].
  destruct (_ <=? mx); [|exact IH]. intros [= <-]. apply Z.mod_pos_bound. lia.
Qed.

Lemma Intn_range n draws v : Intn n draws = Some v -> 0 <= v < n.
Proof.
  unfold Intn, Int31n, Int63n.
  destruct (Z.leb_spec n 0); [discriminate|].
  destruct (Z.leb_spec n MaxInt32), (Z.eqb_spec (Z.land n (n - 1)) 0);
    try (apply int31n_loop_range || apply int63n_loop_range; lia);
    (destruct draws as [|u draws]; [discriminate|]); intros [= <-].
  - pose proof (DiscoveryProofs.Int31_range u).
    pose proof (land_bound (Int31 u) (n - 1)). lia.
  - pose proof (Int63_range u).
    pose proof (land_bound (Int63 u) (n - 1)). lia.
Qed.

Lemma i64_small z : - 2 ^ 63 <= z < 2 ^ 63 -> i64 z = z.
Proof. intros H. unfold i64. rewrite Z.mod_small by lia. lia. Qed.

Lemma to_nat_mod_lt (l : list string) i :
  l <> [] -> (Z.to_nat (i mod Z.of_nat (length l)) < length l)%nat.
Proof.
  intros Hl. destruct l as [|a l]; [done|].
  pose proof (Z.mod_pos_bound i (Z.of_nat (length (a :: l))) ltac:(simpl; lia)). lia.
Qed.

Lemma Get_rr_step (l : list string) i draws :
  l <> [] -> 0 <= i < 2 ^ 63 - 1 ->
  Get RoundRobinSelect draws (mkMSD l i)
    = Some (inl (nth (Z.to_nat (i mod Z.of_nat (length l))) l ""),
            mkMSD l ((i + 1) mod Z.of_nat (length l))).
Proof.
  intros Hl Hi.
  assert (Hn : 0 < Z.of_nat (length l)) by (destruct l; [done|simpl; lia]).
  unfold Get. simpl d_servers. simpl d_index.
  destruct (Z.eqb_spec (Z.of_nat (length l)) 0); [lia|].
  change (RoundRobinSelect =? RandomSelect) with false.
  change (RoundRobinSelect =? RoundRobinSelect) with true. cbv iota.
  rewrite i64_small by lia.
  rewrite !Z.rem_mod_nonneg by lia.
  unfold at_index. destruct (Z.ltb_spec (i mod Z.of_nat (length l)) 0).
  { pose proof (Z.mod_pos_bound i (Z.of_nat (length l)) Hn). lia. }
  rewrite (nth_error_nth' l "") by (apply to_nat_mod_lt; done). done.
Qed.

Lemma round_robin_S k d :
  round_robin (S k) d =
    match Get RoundRobinSelect [] d with
    | None => None
    | Some (r, d1) =>
        match round_robin k d1 with
        | None => None
        | Some (rs, d2) => Some (r :: rs, d2)
        end
    end.
Proof. reflexivity. Qed.

Lemma round_robin_steps (l : list string) k i :
  l <> [] -> Z.of_nat (length l) < 2 ^ 63 - 1 -> 0 <= i < 2 ^ 63 - 1 ->
  round_robin (S k) (mkMSD l i)
    = Some ((fun t => inl (nth (Z.to_nat ((i + Z.of_nat t) mod Z.of_nat (length l))) l ""))
              <$> seq 0 (S k),
            mkMSD l ((i + Z.of_nat (S k)) mod Z.of_nat (length l))).
Proof.
  intros Hl Hn. assert (Hn0 : 0 < Z.of_nat (length l)) by (destruct l; [done|simpl; lia]).
  revert i. induction k as [|k IH]; intros i Hi.
  - rewrite round_robin_S, Get_rr_step by done. cbn [round_robin].
    change (seq 0 1) with [0%nat]. rewrite fmap_cons, fmap_nil. cbn [Z.of_nat].
    by rewrite Z.add_0_r.
  - rewrite round_robin_S, Get_rr_step by done. cbv iota beta.
    pose proof (Z.mod_pos_bound (i + 1) (Z.of_nat (length l)) Hn0).
    rewrite IH by lia. cbv iota beta. f_equal. f_equal.
    + change (seq 0 (S (S k))) with (0%nat :: seq 1 (S k)).
      rewrite fmap_cons, Z.add_0_r. f_equal.
      rewrite <- fmap_S_seq, <- list_fmap_compose. apply list_fmap_ext.
      intros t x _. unfold compose. rewrite Z.add_mod_idemp_l by lia.
      do 4 f_equal. lia.
    + f_equal. rewrite Z.add_mod_idemp_l by lia. f_equal. lia.
Qed.

Lemma mod_shift n a t : 0 < n -> 0 <= a < n -> 0 <= t < n ->
  (a + t) mod n = if a + t <? n then a + t else a + t - n.
Proof.
  intros Hn Ha Ht. destruct (Z.ltb_spec (a + t) n).
  - apply Z.mod_small. lia.
  - replace (a + t) with ((a + t - n) + 1 * n) at 1 by lia.
    rewrite Z.mod_add by lia. apply Z.mod_small. lia.
Qed.

Lemma rotation_lookup (l : list string) i :
  l <> [] ->
  let j := Z.to_nat (i mod Z.of_nat (length l)) in
  (fun t => nth (Z.to_nat ((i + Z.of_nat t) mod Z.of_nat (length l))) l "") <$> seq 0 (length l)
    = drop j l ++ take j l.
Proof.
  intros Hl j. assert (Hn0 : 0 < Z.of_nat (length l)) by (destruct l; [done|simpl; lia]).
  pose proof (to_nat_mod_lt l i Hl) as Hj. fold j in Hj.
  apply list_eq. intros t. rewrite list_lookup_fmap.
  destruct (decide (t < length l)%nat) as [Ht|Ht].
  - rewrite lookup_seq_lt by done. simpl.
    rewrite <- Z.add_mod_idemp_l by lia.
    replace (i mod Z.of_nat (length l)) with (Z.of_nat j)
      by (unfold j; rewrite Z2Nat.id; [done|]; apply Z.mod_pos_bound; lia).
    rewrite mod_shift by lia.
    destruct (Z.ltb_spec (Z.of_nat j + Z.of_nat t) (Z.of_nat (length l))).
    + rewrite lookup_app_l by (rewrite length_drop; lia). rewrite lookup_drop.
      replace (Z.to_nat (Z.of_nat j + Z.of_nat t)) with (j + t)%nat by lia.
      destruct (nth_lookup_or_length l (j + t) "") as [Hx|Hx]; [by rewrite Hx|lia].
    + rewrite lookup_app_r by (rewrite length_drop; lia).
      rewrite length_drop, lookup_take_lt by lia.
      replace (Z.to_nat (Z.of_nat j + Z.of_nat t - Z.of_nat (length l)))
        with (t - (length l - j))%nat by lia.
      destruct (nth_lookup_or_length l (t - (length l - j)) "") as [Hx|Hx]; [by rewrite Hx|lia].
  - rewrite lookup_seq_ge by lia. simpl. symmetry. apply lookup_ge_None_2.
    rewrite length_app, length_drop, length_take. lia.
Qed.

(** X13: [Get] on an empty server list returns ["rpc discovery: no
    available servers"], and with a select mode other than random and
    round robin returns ["rpc discovery: not supported select mode"];
    neither changes the discovery or draws a random number. *)
Theorem Get_error_cases (mode : Z) (draws : list Z) (l : list string) (i : Z) :
  Get mode draws (mkMSD [] i) = Some (inr "rpc discovery: no available servers", mkMSD [] i) /\
  (l <> [] -> mode <> RandomSelect -> mode <> RoundRobinSelect ->
   Get mode draws (mkMSD l i) = Some (inr "rpc discovery: not supported select mode", mkMSD l i)).
Proof.
  split; [reflexivity|]. intros Hl H0 H1. unfold Get. cbn [d_servers d_index].
  destruct (Z.eqb_spec (Z.of_nat (length l)) 0); [exfalso; destruct l; [done|]; cbn [length] in *; lia|].
  destruct (Z.eqb_spec mode RandomSelect); [done|].
  destruct (Z.eqb_spec mode RoundRobinSelect); done.
Qed.

(** X14: random selection on a non-empty list returns one of the
    servers and leaves the discovery unchanged; it fails only where
    [r.Intn(n)] does (its draws), never on the index. *)
Theorem Get_random_member (draws : list Z) (d : msd) :
  d_servers d <> [] ->
  (Get RandomSelect draws d = None <-> Intn (Z.of_nat (length (d_servers d))) draws = None) /\
  forall r d', Get RandomSelect draws d = Some (r, d') ->
    d' = d /\ exists s, r = inl s /\ In s (d_servers d).
Proof.
  intros Hl. unfold Get.
  destruct (Z.eqb_spec (Z.of_nat (length (d_servers d))) 0);
    [exfalso; destruct (d_servers d); [done|]; cbn [length] in *; lia|].
  change (RandomSelect =? RandomSelect) with true. cbv iota.
  destruct (Intn _ draws) as [v|] eqn:Hv; [|split; [done|discriminate]].
  apply Intn_range in Hv. unfold at_index.
  destruct (Z.ltb_spec v 0); [lia|].
  destruct (nth_error (d_servers d) (Z.to_nat v)) as [s|] eqn:Hs.
  - split; [split; discriminate|]. intros r d' [= <- <-].
    split; [done|]. exists s. split; [done|]. by apply nth_error_In in Hs.
  - apply nth_error_None in Hs. lia.
Qed.

Lemma Get_random_member_witness :
  ["a"; "b"; "c"] <> [] /\
  Get RandomSelect [Z.shiftl 5 32] (mkMSD ["a"; "b"; "c"] 0) = Some (inl "c", mkMSD ["a"; "b"; "c"] 0).
Proof.
  split; [discriminate|].
  pose proof (proj2 (Get_random_member [Z.shiftl 5 32] (mkMSD ["a"; "b"; "c"] 0) ltac:(discriminate))).
  vm_compute. reflexivity.
Defined.

(** X15: a round-robin [Get] from a valid index [i] returns the server
    at [i mod n] and moves the index to [(i + 1) mod n], which is again
    in [[0, n)]. *)
Theorem Get_round_robin (l : list string) (i : Z) (draws : list Z)
    (Hl : l <> []) (Hi : 0 <= i < 2 ^ 63 - 1) :
  exists s i',
    Get RoundRobinSelect draws (mkMSD l i) = Some (inl s, mkMSD l i') /\
    nth_error l (Z.to_nat (i mod Z.of_nat (length l))) = Some s /\
    i' = (i + 1) mod Z.of_nat (length l) /\ 0 <= i' < Z.of_nat (length l).
Proof.
  rewrite Get_rr_step by done. do 2 eexists. split; [reflexivity|].
  assert (Hn0 : 0 < Z.of_nat (length l)) by (destruct l; [done|simpl; lia]).
  split; [|split; [done|apply Z.mod_pos_bound; lia]].
  apply nth_error_nth'. by apply to_nat_mod_lt.
Qed.

Lemma Get_round_robin_witness :
  ["a"; "b"; "c"] <> [] /\ 0 <= 7 < 2 ^ 63 - 1 /\
  Get RoundRobinSelect [] (mkMSD ["a"; "b"; "c"] 7) = Some (inl "b", mkMSD ["a"; "b"; "c"] 2).
Proof.
  split; [discriminate|]. split; [lia|].
  destruct (Get_round_robin ["a"; "b"; "c"] 7 [] ltac:(discriminate) ltac:(lia))
    as (s & i' & H & _).
  vm_compute. reflexivity.
Defined.

(** X16: [n] successive round-robin [Get] calls on [n] servers return
    every server exactly once, in list order rotated to start at the
    current index [i mod n], and leave the index at [i mod n], the
    position of the first server they returned (which is [i] itself
    when [i < n]). *)
Theorem round_robin_rotation (l : list string) (i : Z)
    (Hl : l <> []) (Hn : Z.of_nat (length l) < 2 ^ 63 - 1) (Hi : 0 <= i < 2 ^ 63 - 1) :
  let j := Z.to_nat (i mod Z.of_nat (length l)) in
  round_robin (length l) (mkMSD l i) = Some (inl <$> (drop j l ++ take j l), mkMSD l (Z.of_nat j)) /\
  drop j l ++ take j l ≡ₚ l.
Proof.
  intros j. split.
  - assert (Hk : exists k, length l = S k) by (destruct l; [done|eexists; reflexivity]).
    destruct Hk as [k Hk].
    rewrite Hk, round_robin_steps by done. rewrite <- Hk.
    pose proof (rotation_lookup l i Hl) as Hr. cbv zeta in Hr. fold j in Hr.
    rewrite <- Hr, <- list_fmap_compose. f_equal. f_equal.
    replace (i + Z.of_nat (length l)) with (i + 1 * Z.of_nat (length l)) by lia.
    rewrite Z.mod_add by lia. unfold j. rewrite Z2Nat.id; [done|].
    apply Z.mod_pos_bound. destruct l; [done|simpl; lia].
  - rewrite Permutation_app_comm. by rewrite take_drop.
Qed.

Lemma round_robin_rotation_witness :
  ["a"; "b"; "c"] <> [] /\ Z.of_nat (length ["a"; "b"; "c"]) < 2 ^ 63 - 1 /\ 0 <= 4 < 2 ^ 63 - 1 /\
  round_robin 3 (mkMSD ["a"; "b"; "c"] 4) = Some ([inl "b"; inl "c"; inl "a"], mkMSD ["a"; "b"; "c"] 1).
Proof.
  split; [discriminate|]. split; [simpl; lia|]. split; [lia|].
  destruct (round_robin_rotation ["a"; "b"; "c"] 4 ltac:(discriminate) ltac:(simpl; lia) ltac:(lia))
    as [H _].
  vm_compute. reflexivity.
Defined.

End SelectionProofs.

(** ** Discovery through the registry *)
Module RegistryDiscoveryProofs.
Import Selection RegistryDiscovery GoStrings.

Lemma split_Join (l : list string) :
  Forall (fun a => has_byte comma a = false) l -> l <> [] ->
  split_char comma (Registry.Join l) = l.
Proof.
  unfold Registry.Join. induction l as [|a l IH]; intros Hall Hne; [done|].
  apply Forall_cons in Hall as [Ha Hall].
  destruct l as [|b l].
  - by apply DialProofs.split_char_no_byte.
  - change (String.concat "," (a :: b :: l)) with (a +:+ String comma (String.concat "," (b :: l))).
    rewrite DialProofs.split_char_sep_app, DialProofs.split_char_no_byte by done.
    rewrite IH by done. done.
Qed.

Lemma keep_nonblank_id (l : list string) :
  Forall (fun a => a <> "" /\ TrimSpace a = a) l -> keep_nonblank l = l.
Proof.
  induction l as [|a l IH]; intros Hall; [done|].
  apply Forall_cons in Hall as [[Hne Ht] Hall]. simpl. rewrite Ht.
  destruct (String.eqb_spec a ""); [done|]. by rewrite IH.
Qed.

Lemma keep_nonblank_spec (l : list string) :
  Forall (fun s => s <> "" /\ exists w, In w l /\ s = TrimSpace w) (keep_nonblank l).
Proof.
  induction l as [|a l IH]; simpl; [constructor|].
  assert (Hw : Forall (fun s => s <> "" /\ exists w, In w (a :: l) /\ s = TrimSpace w)
                 (keep_nonblank l)).
  { eapply Forall_impl; [exact IH|]. intros s (Hs & w & Hw & ->). split; [done|].
    exists w. split; [by right|done]. }
  destruct (String.eqb_spec (TrimSpace a) ""); [exact Hw|].
  constructor; [|exact Hw]. split; [done|]. exists a. split; [by left|done].
Qed.

Lemma Join_servers (l : list string) :
  Forall (fun a => a <> "" /\ has_byte comma a = false /\ TrimSpace a = a) l ->
  keep_nonblank (split_char comma (Registry.Join l)) = l.
Proof.
  intros Hall. destruct l as [|a l]; [reflexivity|].
  rewrite split_Join; [|eapply Forall_impl; [exact Hall|]; naive_solver|done].
  apply keep_nonblank_id. eapply Forall_impl; [exact Hall|]. naive_solver.
Qed.

(** X17: [SimpleRegistryDiscovery.Refresh] asks the registry only once
    the last update is [timeout] old ([10s] when created with [0]); an
    error of the request is returned with the state unchanged; otherwise
    the server list becomes the non-blank, trimmed entries of the
    comma-separated header, the round-robin index is kept and the update
    time is set to now. *)
Theorem Refresh_cache (now : Z) (fetch : string + string) (d : rdisc)
    (registerAddr : string) (d0 : msd) :
  rd_timeout (NewSimpleRegistryDiscovery registerAddr 0 d0) = 10 * Options.Second /\
  rd_lastUpdate (NewSimpleRegistryDiscovery registerAddr 0 d0) = 0 /\
  (now < rd_lastUpdate d + rd_timeout d -> Refresh now fetch d = (None, d, false)) /\
  (rd_lastUpdate d + rd_timeout d <= now ->
   match fetch with
   | inr e => Refresh now fetch d = (Some e, d, true)
   | inl hdr =>
       exists d',
         Refresh now fetch d = (None, d', true) /\
         d_servers (rd_msd d') = keep_nonblank (split_char comma hdr) /\
         d_index (rd_msd d') = d_index (rd_msd d) /\
         rd_registry d' = rd_registry d /\ rd_timeout d' = rd_timeout d /\
         rd_lastUpdate d' = now /\
         Forall (fun s => s <> "" /\ exists w, In w (split_char comma hdr) /\ s = TrimSpace w)
           (d_servers (rd_msd d'))
   end).
Proof.
  split; [reflexivity|]. split; [reflexivity|]. split.
  - intros H. unfold Refresh. destruct (Z.ltb_spec now (rd_lastUpdate d + rd_timeout d)); [done|lia].
  - intros H. unfold Refresh. destruct (Z.ltb_spec now (rd_lastUpdate d + rd_timeout d)); [lia|].
    destruct fetch as [hdr|e]; [|done].
    eexists. split; [reflexivity|]. cbn. repeat (split; [done|]). apply keep_nonblank_spec.
Qed.

(** X18: [SimpleRegistryDiscovery.GetAll] returns the servers the
    registry's [GET] answer lists: a discovery whose cache is stale,
    given the [X-Simplerpc-Servers] header of the registry's [GET]
    answer, ends up with exactly the servers alive in the registry (when
    every registered address is non-blank, holds no comma and no
    surrounding space), and returns them. *)
Theorem registry_discovery_round_trip (timeout : Z) (hdr : string) (t1 t2 now : Z)
    (r : Registry.servers) (d : rdisc)
    (Haddr : forall a s, r !! a = Some s -> a <> "" /\ has_byte comma a = false /\ TrimSpace a = a)
    (Ht : t1 <= t2) (Hstale : rd_lastUpdate d + rd_timeout d <= now) :
  let resp := (Registry.ServeHTTP timeout "GET" hdr t1 t2 r).1 in
  exists l,
    Registry.header resp = Some (Registry.Join l) /\
    GetAll now (inl (default "" (Registry.header resp))) d
      = (inl l, mkRD (mkMSD l (d_index (rd_msd d))) (rd_registry d) (rd_timeout d) now) /\
    (forall a, In a l <-> exists s, r !! a = Some s /\ Registry.alive timeout t2 s = true).
Proof.
  intros resp. unfold resp, Registry.ServeHTTP. cbn [String.eqb Ascii.eqb Bool.eqb].
  destruct (Registry.aliveServers timeout t1 r) as [r1 l1] eqn:E1.
  destruct (Registry.aliveServers timeout t2 r1) as [r2 l2] eqn:E2. cbn [Registry.header fst].
  pose proof (RegistryProofs.aliveServers_list timeout t2 r1) as (_ & _ & Hin).
  rewrite E2 in Hin. cbn [snd] in Hin.
  assert (Hmem : forall a, In a l2 <-> exists s, r !! a = Some s /\ Registry.alive timeout t2 s = true).
  { intros a. rewrite Hin.
    pose proof (RegistryProofs.aliveServers_lookup timeout t1 r a) as H1.
    rewrite E1 in H1. cbn [fst] in H1. rewrite H1. split.
    - intros (s & Hs & Ha). destruct (r !! a) as [s'|]; [|done].
      destruct (Registry.alive timeout t1 s'); [|done]. injection Hs as ->. eauto.
    - intros (s & -> & Ha). exists s. split; [|done].
      by rewrite (RegistryProofs.alive_earlier timeout t1 t2 s Ht Ha). }
  exists l2. split; [done|]. split; [|exact Hmem].
  assert (Hf : Forall (fun a => a <> "" /\ has_byte comma a = false /\ TrimSpace a = a) l2).
  { apply Forall_forall. intros a Ha. apply list_elem_of_In, Hmem in Ha as (s & Hs & _).
    by eapply Haddr. }
  unfold GetAll, Refresh. cbn [default].
  destruct (Z.ltb_spec now (rd_lastUpdate d + rd_timeout d)); [lia|].
  cbn. rewrite Join_servers by done. f_equal. f_equal. apply map_id.
Qed.

Lemma registry_discovery_round_trip_witness :
  (forall a s, ({["10.0.0.1:9999" := Registry.mkItem "10.0.0.1:9999" 0]} : Registry.servers) !! a = Some s ->
     a <> "" /\ has_byte comma a = false /\ TrimSpace a = a) /\
  0 <= 1 /\ rd_lastUpdate (NewSimpleRegistryDiscovery "http://localhost:9999/_simplerpc_/registry" 0 (mkMSD [] 0))
            + rd_timeout (NewSimpleRegistryDiscovery "http://localhost:9999/_simplerpc_/registry" 0 (mkMSD [] 0))
            <= 20 * Options.Second /\
  GetAll (20 * Options.Second)
    (inl (default "" (Registry.header
      (Registry.ServeHTTP 0 "GET" "" 0 1 {["10.0.0.1:9999" := Registry.mkItem "10.0.0.1:9999" 0]}).1)))
    (NewSimpleRegistryDiscovery "http://localhost:9999/_simplerpc_/registry" 0 (mkMSD [] 0))
  = (inl ["10.0.0.1:9999"],
     mkRD (mkMSD ["10.0.0.1:9999"] 0) "http://localhost:9999/_simplerpc_/registry"
       (10 * Options.Second) (20 * Options.Second)).
Proof.
  assert (Ha : forall a s, ({["10.0.0.1:9999" := Registry.mkItem "10.0.0.1:9999" 0]} : Registry.servers) !! a = Some s ->
     a <> "" /\ has_byte comma a = false /\ TrimSpace a = a).
  { intros a s Hs. apply lookup_singleton_Some in Hs as [<- _].
    split; [discriminate|]. split; vm_compute; reflexivity. }
  split; [exact Ha|]. split; [lia|]. split; [vm_compute; discriminate|].
  destruct (registry_discovery_round_trip 0 "" 0 1 (20 * Options.Second)
    {["10.0.0.1:9999" := Registry.mkItem "10.0.0.1:9999" 0]}
    (NewSimpleRegistryDiscovery "http://localhost:9999/_simplerpc_/registry" 0 (mkMSD [] 0))
    Ha ltac:(lia) ltac:(vm_compute; discriminate)) as (l & _ & _ & _).
  vm_compute. reflexivity.
Defined.

End RegistryDiscoveryProofs.

(** ** Connection cache of the multi-server client *)
Module XClientConnsProofs.
Import Client XClientConns.

Lemma Close_marks_closing c : closing (Client.Close c).1 = true /\ IsAvailable (Client.Close c).1 = false.
Proof.
  unfold Client.Close, IsAvailable. destruct (closing c) eqn:E; simpl.
  - rewrite E. by rewrite andb_false_r.
  - by rewrite andb_false_r.
Qed.

Lemma fold_delete_none (l : list (string * Client)) (m : gmap string Client) k :
  m !! k = None -> fold_left (fun m kc => delete kc.1 m) l m !! k = None.
Proof.
  revert m. induction l as [|kc l IH]; intros m Hm; simpl; [done|].
  apply IH. destruct (String.eqb_spec kc.1 k) as [<-|Hne].
  - apply lookup_delete_eq.
  - by rewrite lookup_delete_ne.
Qed.

Lemma fold_delete_in (l : list (string * Client)) (m : gmap string Client) k :
  In k (List.map fst l) -> fold_left (fun m kc => delete kc.1 m) l m !! k = None.
Proof.
  revert m. induction l as [|kc l IH]; intros m Hin; simpl in *; [done|].
  destruct Hin as [<-|Hin].
  - apply fold_delete_none, lookup_delete_eq.
  - by apply IH.
Qed.

(** X19: [XClient.dial] reuses a cached client that is available,
    without dialing; otherwise it dials, after closing the stale client
    and dropping it from the cache, caches the new client on success and
    leaves the other entries of the cache alone. *)
Theorem dial_cache (rpcAddr : string) (xdial : Client + string) (clients : gmap string Client) :
  (forall c, clients !! rpcAddr = Some c -> IsAvailable c = true ->
     dial rpcAddr xdial clients = (inl c, clients, None, false)) /\
  ((forall c, clients !! rpcAddr = Some c -> IsAvailable c = false) ->
     let '(res, clients', stale, dialed) := dial rpcAddr xdial clients in
     res = xdial /\ dialed = true /\
     stale = (fun c => (Client.Close c).1) <$> clients !! rpcAddr /\
     (forall c, stale = Some c -> closing c = true) /\
     clients' !! rpcAddr = match xdial with inl n => Some n | inr _ => None end /\
     (forall b, b <> rpcAddr -> clients' !! b = clients !! b)).
Proof.
  split.
  - intros c Hc Ha. unfold dial. by rewrite Hc, Ha.
  - intros Hna. unfold dial. destruct (clients !! rpcAddr) as [c|] eqn:Hc.
    + rewrite (Hna c eq_refl).
      destruct xdial as [n|e]; (split; [done|]); (split; [done|]); (split; [done|]);
        (split; [intros c' [= <-]; apply Close_marks_closing|]).
      * split; [apply lookup_insert_eq|]. intros b Hb.
        by rewrite lookup_insert_ne, lookup_delete_ne by congruence.
      * split; [apply lookup_delete_eq|]. intros b Hb. by rewrite lookup_delete_ne by congruence.
    + destruct xdial as [n|e]; (split; [done|]); (split; [done|]); (split; [done|]);
        (split; [discriminate|]).
      * split; [apply lookup_insert_eq|]. intros b Hb. by rewrite lookup_insert_ne by congruence.
      * split; [done|]. done.
Qed.

(** X20: [XClient.Close] closes every cached client once (each ends up
    [closing], so no longer available) and leaves the cache empty. *)
Theorem XClose_all (clients : gmap string Client) :
  (Close clients).1 = ∅ /\
  NoDup (List.map fst (Close clients).2) /\
  (forall k, In k (List.map fst (Close clients).2) <-> is_Some (clients !! k)) /\
  (forall k c, In (k, c) (Close clients).2 ->
     exists c0, clients !! k = Some c0 /\ c = (Client.Close c0).1 /\
       closing c = true /\ IsAvailable c = false).
Proof.
  unfold Close. cbn [fst snd]. rewrite map_map. cbn [fst].
  split; [|split; [|split]].
  - apply map_empty. intros k. destruct (clients !! k) as [c|] eqn:Hk.
    + apply fold_delete_in. apply in_map_iff. exists (k, c). split; [done|].
      apply list_elem_of_In. by apply elem_of_map_to_list.
    + by apply fold_delete_none.
  - rewrite <- RegistryProofs.fmap_is_map. apply NoDup_fst_map_to_list.
  - intros k. rewrite in_map_iff. split.
    + intros ([k' c] & <- & Hin). apply list_elem_of_In, elem_of_map_to_list in Hin. by eexists.
    + intros [c Hc]. exists (k, c). split; [done|].
      apply list_elem_of_In. by apply elem_of_map_to_list.
  - intros k c Hin. apply in_map_iff in Hin as ([k' c0] & [= <- <-] & Hin).
    apply list_elem_of_In, elem_of_map_to_list in Hin.
    exists c0. split; [done|]. split; [done|]. apply Close_marks_closing.
Qed.

End XClientConnsProofs.

(** ** Heartbeats and the registry's entries *)
Module HeartbeatProofs.
Import Heartbeat.

(** X21: the period [Heartbeat] gives its ticker: a negative
    [duration] is kept as it is (and [time.NewTicker] then panics); any
    other is made positive, and every period is at most the registry's
    default timeout.  On the registry's clock, the entry of a server
    whose heartbeat was stamped [t] is listed exactly at the times
    before [t + defaultTimeout]; so at [t] plus the period it is still
    listed unless the requested period is exactly the timeout
    ([5 min]).  When the next heartbeat's POST reaches the registry is
    not modelled. *)
Theorem heartbeat_period (duration t : Z) (addr : string) (r : Registry.servers) :
  let hd := heartbeat_duration duration in
  (duration < 0 -> hd = duration) /\
  (0 <= duration -> 0 < hd) /\
  hd <= defaultTimeout /\
  (forall now,
     is_Some ((Registry.aliveServers defaultTimeout now (Registry.putServer addr t r)).1 !! addr)
     <-> now < t + defaultTimeout) /\
  (is_Some ((Registry.aliveServers defaultTimeout (t + hd) (Registry.putServer addr t r)).1 !! addr)
     <-> duration <> defaultTimeout).
Proof.
  intros hd.
  assert (Hput : exists a0, Registry.putServer addr t r !! addr = Some (Registry.mkItem a0 t)).
  { unfold Registry.putServer. destruct (r !! addr); eexists; apply lookup_insert_eq. }
  destruct Hput as [a0 Hput].
  assert (Hr : (duration < 0 -> hd = duration) /\ (0 <= duration -> 0 < hd) /\
               hd <= defaultTimeout /\ (hd = defaultTimeout <-> duration = defaultTimeout)).
  { unfold hd, heartbeat_duration, defaultTimeout, Minute, Options.Second.
    destruct (Z.eqb_spec duration 0), (Z.ltb_spec (5 * (60 * 1000000000)) duration); simpl; lia. }
  assert (Hal : forall now, is_Some ((Registry.aliveServers defaultTimeout now
                   (Registry.putServer addr t r)).1 !! addr) <-> now < t + defaultTimeout).
  { intros now. rewrite RegistryProofs.aliveServers_lookup, Hput.
    unfold Registry.alive. cbn [Registry.start]. unfold defaultTimeout, Minute, Options.Second.
    destruct (Z.ltb_spec now (t + 5 * (60 * 1000000000))); simpl.
    - split; [lia|by eexists].
    - split; [by intros []|lia]. }
  destruct Hr as (Hneg & Hpos & Hle & Heq).
  split; [exact Hneg|]. split; [exact Hpos|]. split; [exact Hle|]. split; [exact Hal|].
  rewrite Hal. lia.
Qed.

(** A negative period is kept; the default one leaves the entry listed
    when the next heartbeat is due. *)
Lemma heartbeat_period_witness :
  heartbeat_duration (-1) = -1 /\
  is_Some ((Registry.aliveServers defaultTimeout (heartbeat_duration 0)
     (Registry.putServer "tcp@10.0.0.1:9999" 0 ∅)).1 !! "tcp@10.0.0.1:9999").
Proof.
  split.
  - apply (proj1 (heartbeat_period (-1) 0 "tcp@10.0.0.1:9999" ∅)). lia.
  - destruct (heartbeat_period 0 0 "tcp@10.0.0.1:9999" ∅) as (_ & _ & _ & _ & H).
    apply H. vm_compute. discriminate.
Defined.

(** X22: every entry of the registry is keyed by its own [Addr], and
    every request the registry serves keeps it so. *)
Theorem registry_addr_invariant (timeout : Z) (method hdr : string) (t1 t2 : Z)
    (r : Registry.servers) (Hinv : map_Forall (fun a s => Registry.Addr s = a) r) :
  map_Forall (fun a s => Registry.Addr s = a) (Registry.ServeHTTP timeout method hdr t1 t2 r).2.
Proof.
  assert (Hsweep : forall now r0, map_Forall (fun a s => Registry.Addr s = a) r0 ->
            map_Forall (fun a s => Registry.Addr s = a) (Registry.aliveServers timeout now r0).1).
  { intros now r0 H0 a s Hs. rewrite RegistryProofs.aliveServers_lookup in Hs.
    destruct (r0 !! a) as [s0|] eqn:E; [|done].
    destruct (Registry.alive timeout now s0); [|done]. injection Hs as <-. by apply H0. }
  unfold Registry.ServeHTTP.
  destruct (String.eqb method "GET").
  - destruct (Registry.aliveServers timeout t1 r) as [r1 l1] eqn:E1.
    destruct (Registry.aliveServers timeout t2 r1) as [r2 l2] eqn:E2. cbn [snd].
    assert (H1 : map_Forall (fun a s => Registry.Addr s = a) r1).
    { pose proof (Hsweep t1 r Hinv) as H. by rewrite E1 in H. }
    pose proof (Hsweep t2 r1 H1) as H. by rewrite E2 in H.
  - destruct (String.eqb method "POST"); [|done].
    destruct (String.eqb hdr ""); [done|]. cbn [snd].
    unfold Registry.putServer. destruct (r !! hdr) as [s|] eqn:E.
    + apply map_Forall_insert_2; [|done]. cbn. by apply Hinv.
    + apply map_Forall_insert_2; [done|done].
Qed.

Lemma registry_addr_invariant_witness :
  map_Forall (fun a s => Registry.Addr s = a) (∅ : Registry.servers) /\
  map_Forall (fun a s => Registry.Addr s = a)
    (Registry.ServeHTTP 0 "POST" "tcp@10.0.0.1:9999" 7 7 ∅).2.
Proof.
  split; [apply map_Forall_empty|].
  apply (registry_addr_invariant 0 "POST" "tcp@10.0.0.1:9999" 7 7 ∅ (map_Forall_empty _)).
Defined.

End HeartbeatProofs.
